(** * Ecommerce-AI-Agent: the chat-turn pipeline of the backend

    A shallow embedding of [backend/validation.ts], [backend/database.ts],
    [backend/llm.ts] and the two route handlers of [backend/index.ts],
    followed by the properties of the pipeline.

    JavaScript strings are sequences of UTF-16 code units; the SQLite
    tables are lists of rows in rowid (insertion) order; the handlers run
    in a small state-and-exception monad over the store. *)

From Stdlib Require Import List ZArith NArith Bool String Ascii Lia.
From Stdlib Require Import Permutation Sorted.
Import ListNotations.

Local Open Scope Z_scope.

(** ** JavaScript strings and values *)

(** A string is its sequence of UTF-16 code units. *)
Definition jsstring : Type := list N.

Module Js.

(** An ASCII literal of the source. *)
Definition lit (s : string) : jsstring :=
  map N_of_ascii (list_ascii_of_string s).

(** [s.length] *)
Definition length (s : jsstring) : Z := Z.of_nat (List.length s).

(** WhiteSpace and LineTerminator code points, the ones
    [String.prototype.trim] strips. *)
Definition is_white (c : N) : bool :=
  existsb (N.eqb c)
    [9; 10; 11; 12; 13; 32; 160; 5760;
     8192; 8193; 8194; 8195; 8196; 8197; 8198; 8199; 8200; 8201; 8202;
     8232; 8233; 8239; 8287; 12288; 65279]%N.

Fixpoint trimStart (s : jsstring) : jsstring :=
  match s with
  | [] => []
  | c :: r => if is_white c then trimStart r else s
  end.

Fixpoint trimEnd (s : jsstring) : jsstring :=
  match s with
  | [] => []
  | c :: r =>
      match trimEnd r with
      | [] => if is_white c then [] else [c]
      | r' => c :: r'
      end
  end.

(** [s.trim()] *)
Definition trim (s : jsstring) : jsstring := trimEnd (trimStart s).

Fixpoint startsWith (s p : jsstring) : bool :=
  match p, s with
  | [], _ => true
  | _ :: _, [] => false
  | a :: p', b :: s' => N.eqb a b && startsWith s' p'
  end.

(** [s.includes(sub)] *)
Fixpoint includes (s sub : jsstring) : bool :=
  startsWith s sub
  || match s with
     | [] => false
     | _ :: r => includes r sub
     end.

Definition eqb (a b : jsstring) : bool :=
  if list_eq_dec N.eq_dec a b then true else false.

(** [a || b] where [a] is a string or undefined: the empty string and
    undefined are falsy. *)
Definition or (a : option jsstring) (b : jsstring) : jsstring :=
  match a with
  | Some (c :: r) => c :: r
  | _ => b
  end.

(** [a.slice(-n)] on an array. *)
Definition slice_last {A : Type} (n : nat) (a : list A) : list A :=
  skipn (List.length a - n) a.

(** The values a parsed JSON body can hold in one property. *)
Inductive value : Type :=
| Undefined
| Null
| Boolean (b : bool)
| Number (n : Z)
| String (s : jsstring)
| Composite.

End Js.

(** ** The data model of database.ts *)

Inductive Sender : Type := user | ai.

Module Conversation.
Record t : Type := {
  id : jsstring;
  createdAt : Z
}.
End Conversation.

Module Message.
Record t : Type := {
  id : jsstring;
  conversationId : jsstring;
  sender : Sender;
  text : jsstring;
  timestamp : Z
}.
End Message.

(** The two tables, each in rowid order: a row's rowid is its position,
    and an INSERT appends. *)
Record Store : Type := {
  conversations : list Conversation.t;
  messages : list Message.t
}.

(** The constraint failures an INSERT can raise. *)
Inductive SqliteError : Type :=
| UniqueConstraint
| ForeignKeyConstraint.

(** ** What the external collaborators contribute

    zod's UUID pattern and built-in wording, the SQLite engine's error
    text and foreign-key setting, and the knowledge preamble literal of
    [llm.ts] are fixed outside the pipeline. *)

Class Platform : Type := {
  (** zod's [.uuid()] pattern *)
  is_uuid : jsstring -> bool;
  (** every alternative of the pattern has 36 characters *)
  uuid_rejects_empty : is_uuid [] = false;
  (** zod's wording for an issue without a custom message *)
  zod_invalid_type : jsstring;
  (** the [FAQ_KNOWLEDGE] literal *)
  FAQ_KNOWLEDGE : jsstring;
  (** [PRAGMA foreign_keys] of the engine *)
  foreign_keys : bool;
  (** the [message] of the error the engine throws *)
  sqlite_message : SqliteError -> jsstring
}.

(** ** validation.ts *)

Record ChatMessageRequest : Type := {
  message : jsstring;
  sessionId : option jsstring
}.

Record SessionIdParam : Type := {
  param_sessionId : jsstring
}.

(** The body [express.json()] hands to the handler: an object seen
    through the two properties the schema reads, or anything else. *)
Inductive Body : Type :=
| BodyObject (message sessionId : Js.value)
| BodyOther.

(** [schema.parse]: the parsed value, the issues of the ZodError it
    throws, in the order zod reports them, or an error of another kind
    thrown from inside the schema. *)
Inductive Parsed (T : Type) : Type :=
| ParseOk (data : T)
| ZodError (issues : list jsstring)
| OtherError.
Arguments ParseOk {T} data.
Arguments ZodError {T} issues.
Arguments OtherError {T}.

Inductive Validation (T : Type) : Type :=
| Success (data : T)
| Failure (error : jsstring).
Arguments Success {T} data.
Arguments Failure {T} error.

Section Validation.
Context {P : Platform}.

(** The [message] chain: [.min(1)] and [.max(2000)] see the string as
    sent, [.trim()] then rewrites it, [.refine] sees the trimmed one.
    A value that is not a string stops at the type issue. *)
Definition message_field (v : Js.value) : list jsstring * jsstring :=
  match v with
  | Js.String s =>
      let min1 :=
        if Js.length s <? 1 then [Js.lit "Message cannot be empty"] else [] in
      let max2000 :=
        if 2000 <? Js.length s
        then [Js.lit "Message is too long. Please keep it under 2000 characters."]
        else [] in
      let s' := Js.trim s in
      let refine :=
        if 0 <? Js.length s' then []
        else [Js.lit "Message cannot be empty after trimming whitespace"] in
      (min1 ++ max2000 ++ refine, s')
  | _ => ([Js.lit "Message must be a string"], [])
  end.

(** [z.string().uuid('Invalid session ID format').optional()] *)
Definition optional_uuid_field (v : Js.value)
  : list jsstring * option jsstring :=
  match v with
  | Js.Undefined => ([], None)
  | Js.String s =>
      if is_uuid s then ([], Some s)
      else ([Js.lit "Invalid session ID format"], Some s)
  | _ => ([zod_invalid_type], None)
  end.

Definition ChatMessageRequestSchema (body : Body)
  : Parsed ChatMessageRequest :=
  match body with
  | BodyObject m s =>
      let '(im, vm) := message_field m in
      let '(iu, vs) := optional_uuid_field s in
      match im ++ iu with
      | [] => ParseOk {| message := vm; sessionId := vs |}
      | issues => ZodError issues
      end
  | BodyOther => ZodError [zod_invalid_type]
  end.

(** [z.string({message: 'Session ID must be a string'}).uuid(...)] on
    [{ sessionId: req.params.sessionId }]. *)
Definition SessionIdParamSchema (v : Js.value) : Parsed SessionIdParam :=
  match v with
  | Js.String s =>
      if is_uuid s then ParseOk {| param_sessionId := s |}
      else ZodError [Js.lit "Invalid session ID format"]
  | _ => ZodError [Js.lit "Session ID must be a string"]
  end.

Definition validateRequest {U T : Type} (schema : U -> Parsed T) (data : U)
  : Validation T :=
  match schema data with
  | ParseOk parsed => Success parsed
  | ZodError issues =>
      Failure (Js.or (hd_error issues) (Js.lit "Validation error"))
  | OtherError => Failure (Js.lit "Invalid request data")
  end.

End Validation.

(** ** database.ts *)

(** A statement returns or throws; what it wrote before stays written
    (the handlers open no transaction). *)
Inductive Outcome (A : Type) : Type :=
| Returned (a : A)
| Threw (e : SqliteError).
Arguments Returned {A} a.
Arguments Threw {A} e.

Definition Db (A : Type) : Type := Store -> Store * Outcome A.

Definition ret {A : Type} (a : A) : Db A := fun st => (st, Returned a).

Definition throw {A : Type} (e : SqliteError) : Db A := fun st => (st, Threw e).

Definition bind {A B : Type} (m : Db A) (k : A -> Db B) : Db B :=
  fun st =>
    match m st with
    | (st', Returned a) => k a st'
    | (st', Threw e) => (st', Threw e)
    end.

Declare Scope db_scope.
Delimit Scope db_scope with db.
Notation "x <- m ;; k" := (bind m (fun x => k))
  (at level 100, m at next level, right associativity) : db_scope.
Notation "m ;;; k" := (bind m (fun _ => k))
  (at level 100, right associativity) : db_scope.

(** *** Ordered reads through [idx_messages_conversation]

    The index on [(conversationId, timestamp)] keeps its entries ordered
    by conversation, then timestamp, then rowid.  Both SELECTs fix the
    conversation and order by timestamp, so the engine walks the index
    range of that conversation: forward for ASC, backward for DESC. *)

Definition Row : Type := (nat * Message.t)%type.

Definition rowid (r : Row) : nat := fst r.

Definition table_scan (tbl : list Message.t) : list Row :=
  combine (seq 0 (List.length tbl)) tbl.

Definition index_le (a b : Row) : bool :=
  (Message.timestamp (snd a) <? Message.timestamp (snd b))
  || ((Message.timestamp (snd a) =? Message.timestamp (snd b))
      && (rowid a <=? rowid b)%nat).

Definition index_ge (a b : Row) : bool := index_le b a.

Fixpoint insert_row (le : Row -> Row -> bool) (x : Row) (l : list Row)
  : list Row :=
  match l with
  | [] => [x]
  | y :: r => if le x y then x :: l else y :: insert_row le x r
  end.

Definition ordered (le : Row -> Row -> bool) (l : list Row) : list Row :=
  fold_right (insert_row le) [] l.

Definition where_conversationId (conversationId : jsstring) (tbl : list Message.t)
  : list Row :=
  filter (fun r => Js.eqb (Message.conversationId (snd r)) conversationId)
         (table_scan tbl).

(** [... WHERE conversationId = ? ORDER BY timestamp ASC] *)
Definition select_asc (conversationId : jsstring) (tbl : list Message.t)
  : list Message.t :=
  map snd (ordered index_le (where_conversationId conversationId tbl)).

(** [... WHERE conversationId = ? ORDER BY timestamp DESC LIMIT ?] *)
Definition select_desc_limit (conversationId : jsstring) (limit : nat)
  (tbl : list Message.t) : list Message.t :=
  firstn limit
    (map snd (ordered index_ge (where_conversationId conversationId tbl))).

Definition count_conversations (id : jsstring) (st : Store) : Z :=
  Z.of_nat
    (List.length
       (filter (fun c => Js.eqb (Conversation.id c) id) (conversations st))).

Section Database.
Context {P : Platform}.

(** [now] is the reading of [Date.now()] inside the method. *)
Definition createConversation (id : jsstring) (now : Z)
  : Db Conversation.t :=
  fun st =>
    if existsb (fun c => Js.eqb (Conversation.id c) id) (conversations st)
    then (st, Threw UniqueConstraint)
    else
      let row := {| Conversation.id := id; Conversation.createdAt := now |} in
      ({| conversations := conversations st ++ [row];
          messages := messages st |},
       Returned row).

Definition getConversation (id : jsstring) : Db (option Conversation.t) :=
  fun st =>
    (st, Returned
           (find (fun c => Js.eqb (Conversation.id c) id) (conversations st))).

Definition createMessage (id conversationId : jsstring) (sender : Sender)
  (text : jsstring) (now : Z) : Db Message.t :=
  fun st =>
    if existsb (fun m => Js.eqb (Message.id m) id) (messages st)
    then (st, Threw UniqueConstraint)
    else if foreign_keys
            && negb (existsb
                       (fun c => Js.eqb (Conversation.id c) conversationId)
                       (conversations st))
    then (st, Threw ForeignKeyConstraint)
    else
      let row := {| Message.id := id;
                    Message.conversationId := conversationId;
                    Message.sender := sender;
                    Message.text := text;
                    Message.timestamp := now |} in
      ({| conversations := conversations st;
          messages := messages st ++ [row] |},
       Returned row).

Definition getMessages (conversationId : jsstring) : Db (list Message.t) :=
  fun st => (st, Returned (select_asc conversationId (messages st))).

Definition getConversationHistory (conversationId : jsstring) (limit : nat)
  : Db (list Message.t) :=
  fun st =>
    let messages := select_desc_limit conversationId limit (messages st) in
    (st, Returned (rev messages)).

Definition conversationExists (id : jsstring) : Db bool :=
  fun st => (st, Returned (0 <? count_conversations id st)).

End Database.

(** ** llm.ts *)

(** What [genAI.models.generateContent] does with a prompt: it resolves
    to a result whose [text] may be undefined, or it rejects with an
    error whose [message] may be undefined. *)
Inductive Completion : Type :=
| Resolved (text : option jsstring)
| Rejected (message : option jsstring).

Record LLMService : Type := {
  generateContent : jsstring -> Completion
}.

Definition newline : jsstring := [10%N].

(** [error.message?.includes(sub)] as a condition. *)
Definition message_includes (message : option jsstring) (sub : jsstring)
  : bool :=
  match message with
  | Some m => Js.includes m sub
  | None => false
  end.

(** The [catch] block of [generateReply]: the message of the error it
    throws in place of the one it caught. *)
Definition rethrown_message (message : option jsstring) : jsstring :=
  if message_includes message (Js.lit "API key")
     || message_includes message (Js.lit "API_KEY")
  then Js.lit "Invalid API key. Please check your Gemini API configuration."
  else if message_includes message (Js.lit "quota")
          || message_includes message (Js.lit "rate limit")
  then Js.lit "Rate limit reached. Please try again in a moment."
  else if message_includes message (Js.lit "timeout")
  then Js.lit "Request timeout. Please try again."
  else Js.lit "Sorry, I encountered an error processing your request. Please try again.".

Section LLM.
Context {P : Platform}.

Definition buildConversationContext (history : list Message.t)
  (currentMessage : jsstring) : jsstring :=
  let context := FAQ_KNOWLEDGE ++ newline ++ newline in
  let recentHistory := Js.slice_last 10 history in
  let context :=
    if 0 <? Z.of_nat (List.length recentHistory)
    then
      fold_left
        (fun context msg =>
           let role :=
             match Message.sender msg with
             | user => Js.lit "Customer"
             | ai => Js.lit "Agent"
             end in
           context ++ role ++ Js.lit ": " ++ Message.text msg ++ newline)
        recentHistory
        (context ++ Js.lit "CONVERSATION HISTORY:" ++ newline)
      ++ newline
    else context in
  context ++ Js.lit "Customer: " ++ currentMessage ++ newline ++ newline
          ++ Js.lit "Agent:".

(** [inl reply] when the promise resolves, [inr message] when it
    rejects with [new Error(message)]. *)
Definition generateReply (svc : LLMService)
  (conversationHistory : list Message.t) (userMessage : jsstring)
  : jsstring + jsstring :=
  let conversationContext :=
    buildConversationContext conversationHistory userMessage in
  match generateContent svc conversationContext with
  | Resolved reply =>
      match reply with
      | Some (c :: r) =>
          if Js.length (Js.trim (c :: r)) =? 0
          then inr (rethrown_message (Some (Js.lit "Empty response from LLM")))
          else inl (Js.trim (c :: r))
      | _ => inr (rethrown_message (Some (Js.lit "Empty response from LLM")))
      end
  | Rejected message => inr (rethrown_message message)
  end.

End LLM.

(** ** index.ts *)

Inductive Response : Type :=
| ChatMessageResponse (reply sessionId : jsstring)
| HistoryResponse (messages : list Message.t) (sessionId : jsstring)
| ErrorResponse (status : Z) (error : jsstring) (timestamp : Z).

(** [res.json] without [res.status] answers 200. *)
Definition status (r : Response) : Z :=
  match r with
  | ErrorResponse s _ _ => s
  | _ => 200
  end.

(** What one request draws from the process and the runtime, in the
    order of the calls: the module-level [llmService], the results of
    [randomUUID()] and the readings of [Date.now()]. *)
Record Env : Type := {
  llmService : option LLMService;
  (** [randomUUID()] of the session resolution *)
  freshSessionId : jsstring;
  userMessageId : jsstring;
  aiMessageId : jsstring;
  (** [Date.now()] in [createConversation] and the two [createMessage] *)
  now_conversation : Z;
  now_user : Z;
  now_ai : Z;
  (** [Date.now()] of an error body *)
  now_error : Z
}.

Section Handlers.
Context {P : Platform}.

(** [asyncHandler] passes a rejection to the global error handler,
    which answers [error.status || 500] with [error.message ||
    'Internal server error']; an engine error has no [status]. *)
Definition asyncHandler (env : Env) (fn : Db Response)
  : Store -> Store * Response :=
  fun st =>
    match fn st with
    | (st', Returned r) => (st', r)
    | (st', Threw e) =>
        (st', ErrorResponse 500
                (Js.or (Some (sqlite_message e))
                       (Js.lit "Internal server error"))
                (now_error env))
    end.

(** The [try]/[catch] around the reply: [aiReply] is the reply, or
    [error.message || 'Sorry, I encountered an error. ...']. *)
Definition reply_or_caught (svc : LLMService) (history : list Message.t)
  (message : jsstring) : jsstring :=
  match generateReply svc history message with
  | inl reply => reply
  | inr error_message =>
      Js.or (Some error_message)
        (Js.lit "Sorry, I encountered an error. Please try again.")
  end.

Definition chat_message_body (env : Env) (body : Body) : Db Response :=
  match validateRequest ChatMessageRequestSchema body with
  | Failure error => ret (ErrorResponse 400 error (now_error env))
  | Success data =>
      let message := message data in
      let requestSessionId := sessionId data in
      let sessionId := Js.or requestSessionId (freshSessionId env) in
      (known <- conversationExists sessionId ;;
       (if negb known
        then (createConversation sessionId (now_conversation env) ;;; ret tt)
        else ret tt) ;;;
       createMessage (userMessageId env) sessionId user message
                     (now_user env) ;;;
       aiReply <-
         match llmService env with
         | None => ret (Js.lit "Sorry, the AI service is currently unavailable.")
         | Some svc =>
             history <- getConversationHistory sessionId 10 ;;
             ret (reply_or_caught svc history message)
         end ;;
       createMessage (aiMessageId env) sessionId ai aiReply (now_ai env) ;;;
       ret (ChatMessageResponse aiReply sessionId))%db
  end.

(** [POST /chat/message] *)
Definition post_chat_message (env : Env) (body : Body)
  : Store -> Store * Response :=
  asyncHandler env (chat_message_body env body).

Definition chat_history_body (env : Env) (param : jsstring) : Db Response :=
  match validateRequest SessionIdParamSchema (Js.String param) with
  | Failure error => ret (ErrorResponse 400 error (now_error env))
  | Success data =>
      let sessionId := param_sessionId data in
      (known <- conversationExists sessionId ;;
       if negb known
       then ret (ErrorResponse 404 (Js.lit "Conversation not found")
                               (now_error env))
       else
         messages <- getMessages sessionId ;;
         ret (HistoryResponse messages sessionId))%db
  end.

(** [GET /chat/history/:sessionId] *)
Definition get_chat_history (env : Env) (param : jsstring)
  : Store -> Store * Response :=
  asyncHandler env (chat_history_body env param).

End Handlers.

(** ** The operations of the store, as a caller can sequence them *)

Inductive StoreOp : Type :=
| OpCreateConversation (id : jsstring) (now : Z)
| OpGetConversation (id : jsstring)
| OpCreateMessage (id conversationId : jsstring) (sender : Sender)
    (text : jsstring) (now : Z)
| OpGetMessages (conversationId : jsstring)
| OpGetConversationHistory (conversationId : jsstring) (limit : nat)
| OpConversationExists (id : jsstring).

Section StoreOps.
Context {P : Platform}.

(** The store after one operation, whether it returned or threw. *)
Definition run_op (op : StoreOp) (st : Store) : Store :=
  match op with
  | OpCreateConversation id now => fst (createConversation id now st)
  | OpGetConversation id => fst (getConversation id st)
  | OpCreateMessage id c s t now => fst (createMessage id c s t now st)
  | OpGetMessages c => fst (getMessages c st)
  | OpGetConversationHistory c n => fst (getConversationHistory c n st)
  | OpConversationExists id => fst (conversationExists id st)
  end.

Definition run_ops (ops : list StoreOp) (st : Store) : Store :=
  fold_left (fun st op => run_op op st) ops st.

End StoreOps.

(** ** The failure kinds of the Reply Generator, in the words of the
    design: the kind of an error is read off its message, and each kind
    has one fixed message. *)

Inductive ErrorKind : Type :=
| InvalidCredentials
| RateLimited
| Timeout
| Unknown.

Definition kind_of_error (message : option jsstring) : ErrorKind :=
  if message_includes message (Js.lit "API key")
     || message_includes message (Js.lit "API_KEY")
  then InvalidCredentials
  else if message_includes message (Js.lit "quota")
          || message_includes message (Js.lit "rate limit")
  then RateLimited
  else if message_includes message (Js.lit "timeout") then Timeout
  else Unknown.

Definition kind_message (k : ErrorKind) : jsstring :=
  match k with
  | InvalidCredentials =>
      Js.lit "Invalid API key. Please check your Gemini API configuration."
  | RateLimited => Js.lit "Rate limit reached. Please try again in a moment."
  | Timeout => Js.lit "Request timeout. Please try again."
  | Unknown =>
      Js.lit "Sorry, I encountered an error processing your request. Please try again."
  end.

Definition user_safe_messages : list jsstring :=
  map kind_message [InvalidCredentials; RateLimited; Timeout; Unknown].

(** The last [n] entries of a sequence. *)
Definition last_entries {A : Type} (n : nat) (l : list A) : list A :=
  skipn (List.length l - n) l.

(** ** A platform to run the pipeline on

    The 8-4-4-4-12 hexadecimal shape stands in for zod's pattern. *)

Definition is_hex (c : N) : bool :=
  ((48 <=? c) && (c <=? 57) || (65 <=? c) && (c <=? 70)
   || (97 <=? c) && (c <=? 102))%N.

Fixpoint uuid_shape (i n : nat) (s : jsstring) : bool :=
  match n, s with
  | O, [] => true
  | S n', c :: r =>
      (if existsb (Nat.eqb i) [8; 13; 18; 23]%nat then N.eqb c 45 else is_hex c)
      && uuid_shape (S i) n' r
  | _, _ => false
  end.

Definition sample_platform : Platform := {|
  is_uuid := uuid_shape 0 36;
  uuid_rejects_empty := eq_refl;
  zod_invalid_type := Js.lit "Invalid input";
  FAQ_KNOWLEDGE := Js.lit "You are a helpful customer support agent.";
  foreign_keys := false;
  sqlite_message := fun e =>
    match e with
    | UniqueConstraint => Js.lit "UNIQUE constraint failed"
    | ForeignKeyConstraint => Js.lit "FOREIGN KEY constraint failed"
    end
|}.

Definition empty_store : Store := {| conversations := []; messages := [] |}.

Definition sample_session : jsstring :=
  Js.lit "123e4567-e89b-42d3-a456-426614174000".

(** A service whose provider always rejects with a quota error. *)
Definition failing_service : LLMService :=
  {| generateContent := fun _ =>
       Rejected (Some (Js.lit "429: quota exceeded for project")) |}.

(** A service whose provider answers with padded text. *)
Definition answering_service : LLMService :=
  {| generateContent := fun _ =>
       Resolved (Some (Js.lit "  Free shipping on orders over $50.  ")) |}.

Definition sample_env (svc : option LLMService) (k : N) : Env := {|
  llmService := svc;
  freshSessionId := Js.lit "9f1c2d3e-0000-4000-8000-00000000000" ++ [48 + k]%N;
  userMessageId := Js.lit "aaaaaaaa-0000-4000-8000-00000000000" ++ [48 + k]%N;
  aiMessageId := Js.lit "bbbbbbbb-0000-4000-8000-00000000000" ++ [48 + k]%N;
  now_conversation := 1703347200000;
  now_user := 1703347200000;
  now_ai := 1703347200000;
  now_error := 1703347200001
|}.

(** One visible character followed by 2000 spaces: 2001 characters as
    sent, 1 after trimming. *)
Definition padded_message : jsstring := Js.lit "a" ++ repeat 32%N 2000.

(** A first turn on an empty store, with no LLM service configured. *)
Definition hello_body : Body :=
  BodyObject (Js.String (Js.lit " hello ")) (Js.String sample_session).

Definition hello_data : ChatMessageRequest :=
  {| message := Js.lit "hello"; sessionId := Some sample_session |}.

Definition store_after_hello : Store :=
  fst (@post_chat_message sample_platform (sample_env None 1) hello_body
         empty_store).

(** A second turn in the same session, answered by the provider; the
    four rows of the two turns carry one and the same timestamp. *)
Definition store_after_two_turns : Store :=
  fst (@post_chat_message sample_platform
         (sample_env (Some answering_service) 2) hello_body
         store_after_hello).

(** ** The rest of validation.ts, llm.ts and index.ts *)

(** What [safeParseRequest] does: it returns the parsed data or null,
    or lets through what [schema.safeParse] throws. *)
Inductive SafeParsed (T : Type) : Type :=
| SafeReturned (value : option T)
| SafeThrew.
Arguments SafeReturned {T} value.
Arguments SafeThrew {T}.

(** [schema.safeParse] turns a ZodError into a result; an error of
    another kind passes through it, and through [safeParseRequest]. *)
Definition safeParseRequest {U T : Type} (schema : U -> Parsed T) (data : U)
  : SafeParsed T :=
  match schema data with
  | ParseOk parsed => SafeReturned (Some parsed)
  | ZodError _ => SafeReturned None
  | OtherError => SafeThrew
  end.

Module InputCheck.
Record t : Type := {
  valid : bool;
  error : option jsstring
}.
End InputCheck.

(** [LLMService.validateInput], the deprecated check that the zod schema
    replaces. *)
Definition validateInput (message : jsstring) : InputCheck.t :=
  match message with
  | [] =>
      {| InputCheck.valid := false;
         InputCheck.error := Some (Js.lit "Message cannot be empty") |}
  | _ :: _ =>
      if Js.length (Js.trim message) =? 0
      then {| InputCheck.valid := false;
              InputCheck.error := Some (Js.lit "Message cannot be empty") |}
      else
        let trimmed := Js.trim message in
        let MAX_LENGTH := 2000 in
        if MAX_LENGTH <? Js.length trimmed
        then {| InputCheck.valid := false;
                InputCheck.error :=
                  Some (Js.lit "Message too long. Please keep it under 2000 characters.") |}
        else if Js.length trimmed <? 1
        then {| InputCheck.valid := false;
                InputCheck.error := Some (Js.lit "Message is too short") |}
        else {| InputCheck.valid := true; InputCheck.error := None |}
  end.

(** [new LLMService({ apiKey })] as index.ts calls it: [inl] is the
    message of the error thrown, [inr] the service.  [GoogleGenAI] is
    the SDK: for a key, what [models.generateContent] does with a
    prompt under the default model, token cap and temperature. *)
Definition LLMService_new (GoogleGenAI : jsstring -> jsstring -> Completion)
  (apiKey : jsstring) : jsstring + LLMService :=
  match apiKey with
  | [] => inl (Js.lit "GEMINI_API_KEY is required")
  | _ :: _ => inr {| generateContent := GoogleGenAI apiKey |}
  end.

(** The module-level initialisation of [llmService] in index.ts, from
    [process.env.GEMINI_API_KEY]. *)
Definition initial_llmService (GoogleGenAI : jsstring -> jsstring -> Completion)
  (env_GEMINI_API_KEY : option jsstring) : option LLMService :=
  let GEMINI_API_KEY := Js.or env_GEMINI_API_KEY [] in
  match GEMINI_API_KEY with
  | [] => None
  | _ :: _ =>
      match LLMService_new GoogleGenAI GEMINI_API_KEY with
      | inr svc => Some svc
      | inl _ => None
      end
  end.

Record HealthCheckResponse : Type := {
  health_status : jsstring;
  llmEnabled : bool;
  health_timestamp : Z
}.

(** [GET /health] *)
Definition get_health (llmService : option LLMService) (now : Z)
  : HealthCheckResponse :=
  {| health_status := Js.lit "ok";
     llmEnabled := match llmService with Some _ => true | None => false end;
     health_timestamp := now |}.

(** The requests the two chat routes serve, each with what it draws
    from the runtime. *)
Inductive Request : Type :=
| PostChatMessage (env : Env) (body : Body)
| GetChatHistory (env : Env) (param : jsstring).

Section Server.
Context {P : Platform}.

Definition serve (req : Request) (st : Store) : Store * Response :=
  match req with
  | PostChatMessage env body => post_chat_message env body st
  | GetChatHistory env param => get_chat_history env param st
  end.

(** The store after a sequence of requests, served one after another. *)
Definition serve_all (reqs : list Request) (st : Store) : Store :=
  fold_left (fun st req => fst (serve req st)) reqs st.

End Server.

(** ** The client: Chat.tsx and api.ts up to the request *)

(** [handleSendMessage] before it sends: [inl] is the text of
    [setError], [inr] the trimmed message. *)
Definition handleSendMessage_checks (inputValue : jsstring)
  : jsstring + jsstring :=
  let trimmedMessage := Js.trim inputValue in
  match trimmedMessage with
  | [] => inl (Js.lit "Please enter a message")
  | _ :: _ =>
      if 2000 <? Js.length trimmedMessage
      then inl (Js.lit "Message is too long. Please keep it under 2000 characters.")
      else inr trimmedMessage
  end.

(** The body of [apiService.sendMessage(message, sessionId)] as the
    server parses it: [JSON.stringify] leaves an undefined [sessionId]
    out. *)
Definition sendMessage_body (message : jsstring) (sessionId : option jsstring)
  : Body :=
  BodyObject (Js.String message)
    match sessionId with
    | Some s => Js.String s
    | None => Js.Undefined
    end.

(** The request of one [handleSendMessage], if any: the call is
    [sendMessage(trimmedMessage, sessionId || undefined)]. *)
Definition handleSendMessage_request (inputValue : jsstring)
  (sessionId : option jsstring) : jsstring + Body :=
  match handleSendMessage_checks inputValue with
  | inl error => inl error
  | inr trimmedMessage =>
      inr (sendMessage_body trimmedMessage
             match sessionId with
             | Some (c :: r) => Some (c :: r)
             | _ => None
             end)
  end.

(** The line [buildConversationContext] renders for one message of the
    history. *)
Definition rendered_line (msg : Message.t) : jsstring :=
  match Message.sender msg with
  | user => Js.lit "Customer"
  | ai => Js.lit "Agent"
  end ++ Js.lit ": " ++ Message.text msg ++ newline.

(** *** api.ts: what the client makes of an answer *)

(** What [fetch] hands the client: a rejection with the message of its
    error, or a response, whose body is one of the JSON shapes the
    server sends. *)
Inductive Fetched : Type :=
| FetchRejected (message : jsstring)
| FetchResponse (r : Response).

(** [response.ok] *)
Definition response_ok (r : Response) : bool :=
  (200 <=? status r) && (status r <=? 299).

(** The [error] property of a JSON body, undefined when it has none. *)
Definition body_error (r : Response) : option jsstring :=
  match r with
  | ErrorResponse _ error _ => Some error
  | _ => None
  end.

Fixpoint uint_digits (u : Decimal.uint) : jsstring :=
  match u with
  | Decimal.Nil => []
  | Decimal.D0 u => 48%N :: uint_digits u
  | Decimal.D1 u => 49%N :: uint_digits u
  | Decimal.D2 u => 50%N :: uint_digits u
  | Decimal.D3 u => 51%N :: uint_digits u
  | Decimal.D4 u => 52%N :: uint_digits u
  | Decimal.D5 u => 53%N :: uint_digits u
  | Decimal.D6 u => 54%N :: uint_digits u
  | Decimal.D7 u => 55%N :: uint_digits u
  | Decimal.D8 u => 56%N :: uint_digits u
  | Decimal.D9 u => 57%N :: uint_digits u
  end.

(** An integer in a template literal. *)
Definition decimal (n : Z) : jsstring :=
  match Z.to_int n with
  | Decimal.Pos u => uint_digits u
  | Decimal.Neg u => 45%N :: uint_digits u
  end.

(** [ApiService.sendMessage] once [fetch] has settled: [inl] is the data
    returned, [inr] the message of the error thrown.  Whatever is thrown
    inside the [try] passes through the [catch], which rewords 'Failed
    to fetch'. *)
Definition sendMessage (fetched : Fetched) : Response + jsstring :=
  let caught (message : jsstring) : Response + jsstring :=
    if Js.eqb message (Js.lit "Failed to fetch")
    then inr (Js.lit "Cannot connect to server")
    else inr message in
  match fetched with
  | FetchRejected message => caught message
  | FetchResponse response =>
      if negb (response_ok response)
      then caught (Js.or (body_error response)
                     (Js.lit "HTTP error! status: "
                      ++ decimal (status response)))
      else
        match body_error response with
        | Some (c :: r) => caught (c :: r)
        | _ => inl response
        end
  end.

(** [ApiService.getHistory(sessionId)] once [fetch] has settled. *)
Definition getHistory (sessionId : jsstring) (fetched : Fetched)
  : Response + jsstring :=
  let caught (message : jsstring) : Response + jsstring :=
    if Js.eqb message (Js.lit "Failed to fetch")
    then inr (Js.lit "Cannot connect to server.")
    else inr message in
  match fetched with
  | FetchRejected message => caught message
  | FetchResponse response =>
      if negb (response_ok response)
      then
        if status response =? 404
        then inl (HistoryResponse [] sessionId)
        else caught (Js.lit "HTTP error! status: "
                     ++ decimal (status response))
      else inl response
  end.

(** ** Invariants of the store *)

(** The two primary keys. *)
Definition primary_keys (st : Store) : Prop :=
  NoDup (map Conversation.id (conversations st))
  /\ NoDup (map Message.id (messages st)).

(** Every message row points to a conversation row. *)
Definition references_resolve (st : Store) : Prop :=
  forall m, In m (messages st) ->
    existsb (fun c => Js.eqb (Conversation.id c) (Message.conversationId m))
      (conversations st) = true.

(** What the pipeline lets into [text]: never the empty string, and for
    a [user] row a trimmed string of at most 2000 characters. *)
Definition text_admitted (m : Message.t) : Prop :=
  Message.text m <> []
  /\ (Message.sender m = user ->
      Js.trim (Message.text m) = Message.text m
      /\ Js.length (Message.text m) <= 2000).

(** Every [ai] row sits right after a [user] row of its conversation. *)
Fixpoint replies_follow (prev : option Message.t) (rows : list Message.t)
  : bool :=
  match rows with
  | [] => true
  | m :: rest =>
      match Message.sender m with
      | user => true
      | ai =>
          match prev with
          | Some u =>
              match Message.sender u with
              | user =>
                  Js.eqb (Message.conversationId u) (Message.conversationId m)
              | ai => false
              end
          | None => false
          end
      end
      && replies_follow (Some m) rest
  end.

(** The clock has not run backward for a conversation: no row of it is
    later than [now]. *)
Definition not_later (conversationId : jsstring) (now : Z)
  (tbl : list Message.t) : bool :=
  forallb
    (fun m =>
       negb (Js.eqb (Message.conversationId m) conversationId)
       || (Message.timestamp m <=? now))
    tbl.

(** A provider whose answer is, word for word, the handler's fallback
    text. *)
Definition fallback_echo_service : LLMService :=
  {| generateContent := fun _ =>
       Resolved (Some (Js.lit "Sorry, I encountered an error. Please try again.")) |}.

(** An SDK that answers every prompt under every key. *)
Definition sample_sdk : jsstring -> jsstring -> Completion :=
  fun _ _ => Resolved (Some (Js.lit "Happy to help.")).

(** Two turns of one session with a history read in between. *)
Definition sample_requests : list Request :=
  [PostChatMessage (sample_env None 1) hello_body;
   GetChatHistory (sample_env None 2) sample_session;
   PostChatMessage (sample_env (Some answering_service) 2) hello_body].

(** Another session id, used by no sample request. *)
Definition other_session : jsstring :=
  Js.lit "0aa1b2c3-d4e5-4f60-8a7b-9c0d1e2f3a4b".

(** A runtime whose [randomUUID] hands the [ai] row the id it gave the
    [user] row. *)
Definition colliding_env : Env := {|
  llmService := None;
  freshSessionId := Js.lit "9f1c2d3e-0000-4000-8000-000000000001";
  userMessageId := Js.lit "aaaaaaaa-0000-4000-8000-000000000001";
  aiMessageId := Js.lit "aaaaaaaa-0000-4000-8000-000000000001";
  now_conversation := 1703347200000;
  now_user := 1703347200000;
  now_ai := 1703347200000;
  now_error := 1703347200001
|}.

(** * Properties *)

(** ** Trimming *)

Lemma trimStart_length (s : jsstring) :
  (List.length (Js.trimStart s) <= List.length s)%nat.
Proof.
  induction s as [|c r IH]; simpl; [lia|].
  destruct (Js.is_white c); simpl; lia.
Qed.

Lemma trimEnd_length (s : jsstring) :
  (List.length (Js.trimEnd s) <= List.length s)%nat.
Proof.
  induction s as [|c r IH]; simpl; [lia|].
  destruct (Js.trimEnd r) as [|d r'].
  - destruct (Js.is_white c); simpl; lia.
  - simpl in *; lia.
Qed.

Lemma trim_length (s : jsstring) : Js.length (Js.trim s) <= Js.length s.
Proof.
  unfold Js.length, Js.trim.
  pose proof (trimEnd_length (Js.trimStart s)).
  pose proof (trimStart_length s). lia.
Qed.

Lemma trimStart_head (s : jsstring) (c : N) (r : jsstring) :
  Js.trimStart s = c :: r -> Js.is_white c = false.
Proof.
  induction s as [|d s IH]; simpl; [discriminate|].
  destruct (Js.is_white d) eqn:W; [exact IH|].
  intros E; injection E as -> _; exact W.
Qed.

Lemma trimStart_fixed (c : N) (r : jsstring) :
  Js.is_white c = false -> Js.trimStart (c :: r) = c :: r.
Proof. intros W; simpl; now rewrite W. Qed.

Lemma trimEnd_keeps_head (c : N) (r : jsstring) :
  Js.is_white c = false -> exists r', Js.trimEnd (c :: r) = c :: r'.
Proof.
  intros W; simpl. destruct (Js.trimEnd r) as [|d r'].
  - rewrite W; now exists [].
  - now exists (d :: r').
Qed.

Lemma trimEnd_idempotent (s : jsstring) :
  Js.trimEnd (Js.trimEnd s) = Js.trimEnd s.
Proof.
  induction s as [|c r IH]; simpl; [reflexivity|].
  destruct (Js.trimEnd r) as [|d r'] eqn:E.
  - destruct (Js.is_white c) eqn:W; simpl; [reflexivity|now rewrite W].
  - change (Js.trimEnd (c :: d :: r')) with
      (match Js.trimEnd (d :: r') with
       | [] => if Js.is_white c then [] else [c]
       | x => c :: x
       end).
    now rewrite IH.
Qed.

Lemma trim_idempotent (s : jsstring) : Js.trim (Js.trim s) = Js.trim s.
Proof.
  unfold Js.trim.
  destruct (Js.trimStart s) as [|c r] eqn:E; [reflexivity|].
  pose proof (trimStart_head _ _ _ E) as W.
  destruct (trimEnd_keeps_head c r W) as [r' E'].
  rewrite E', (trimStart_fixed _ _ W), <- E'.
  apply trimEnd_idempotent.
Qed.

Lemma trimStart_all_white (s : jsstring) :
  forallb Js.is_white s = true -> Js.trimStart s = [].
Proof.
  induction s as [|c r IH]; simpl; [reflexivity|].
  destruct (Js.is_white c); simpl; [exact IH|discriminate].
Qed.

Lemma trim_all_white (s : jsstring) :
  forallb Js.is_white s = true -> Js.trim s = [].
Proof. intros H; unfold Js.trim; now rewrite trimStart_all_white. Qed.

(** A non-empty trimmed string holds a character that is not white
    space. *)
Lemma trim_visible (s : jsstring) :
  Js.trim s <> [] -> forallb Js.is_white (Js.trim s) = false.
Proof.
  intros NE. destruct (forallb Js.is_white (Js.trim s)) eqn:E; [|reflexivity].
  apply trim_all_white in E. rewrite trim_idempotent in E. contradiction.
Qed.

Lemma length_zero_nil (s : jsstring) : Js.length s = 0 <-> s = [].
Proof.
  unfold Js.length; split; [|now intros ->].
  destruct s; simpl; [reflexivity|lia].
Qed.

(** ** The chat-turn schema *)

Section ValidationFacts.
Context {P : Platform}.

Lemma message_field_value (m : jsstring) :
  snd (message_field (Js.String m)) = Js.trim m.
Proof. reflexivity. Qed.

Lemma message_field_clean (m : jsstring) :
  fst (message_field (Js.String m)) = []
  <-> Js.length m <= 2000 /\ 1 <= Js.length (Js.trim m).
Proof.
  pose proof (trim_length m) as L.
  unfold message_field; cbv zeta; cbn [fst].
  destruct (Js.length m <? 1) eqn:A;
    destruct (2000 <? Js.length m) eqn:B;
    destruct (0 <? Js.length (Js.trim m)) eqn:C; simpl;
    split; intros H; try discriminate; try reflexivity; lia.
Qed.

(** The schema accepts a body exactly when both properties pass, and
    then hands back the trimmed message and the session id as sent. *)
Lemma ChatMessageRequestSchema_accepts (body : Body)
  (data : ChatMessageRequest) :
  validateRequest ChatMessageRequestSchema body = Success data
  <-> exists m v,
        body = BodyObject (Js.String m) v
        /\ Js.length m <= 2000
        /\ 1 <= Js.length (Js.trim m)
        /\ message data = Js.trim m
        /\ (v = Js.Undefined /\ sessionId data = None
            \/ exists s, v = Js.String s /\ is_uuid s = true
                         /\ sessionId data = Some s).
Proof.
  unfold validateRequest, ChatMessageRequestSchema. split.
  - destruct body as [mv v|]; [|discriminate].
    destruct (message_field mv) as [im vm] eqn:EM.
    destruct (optional_uuid_field v) as [iu vs] eqn:EU.
    destruct (im ++ iu) as [|i rest] eqn:EI; [|discriminate].
    intros E; injection E as <-.
    apply app_eq_nil in EI as [-> ->].
    destruct mv as [| | | |m|]; try (simpl in EM; discriminate).
    pose proof (message_field_clean m) as HC.
    rewrite EM in HC; simpl in HC. destruct HC as [HC _].
    destruct (HC eq_refl) as [H1 H2].
    exists m, v. repeat split; try assumption.
    + simpl. pose proof (message_field_value m) as HV.
      rewrite EM in HV. exact HV.
    + destruct v as [| | | |s|]; simpl in EU; try discriminate.
      * left. injection EU as <-. now split.
      * right. exists s. destruct (is_uuid s) eqn:U; [|discriminate].
        injection EU as <-. now repeat split.
  - intros (m & v & -> & H1 & H2 & HM & HS).
    pose proof (message_field_clean m) as [_ HC].
    specialize (HC (conj H1 H2)).
    pose proof (message_field_value m) as HV.
    destruct (message_field (Js.String m)) as [im vm].
    simpl in HC, HV; subst im vm.
    destruct data as [dm ds]; simpl in HM, HS; subst dm.
    destruct HS as [[-> ->]|(s & -> & U & ->)]; simpl.
    + reflexivity.
    + now rewrite U.
Qed.

Lemma validateRequest_fails_or_succeeds {U T : Type}
  (schema : U -> Parsed T) (u : U) :
  (exists d, validateRequest schema u = Success d)
  \/ (exists e, validateRequest schema u = Failure e).
Proof.
  unfold validateRequest. destruct (schema u); eauto.
Qed.

(** A string the chain trims to nothing, or to more than 2000
    characters, does not validate. *)
Lemma ChatMessageRequestSchema_rejects (m : jsstring) (v : Js.value) :
  Js.length (Js.trim m) = 0 \/ 2000 < Js.length (Js.trim m) ->
  exists error,
    validateRequest ChatMessageRequestSchema (BodyObject (Js.String m) v)
    = Failure error.
Proof.
  intros H.
  destruct (validateRequest_fails_or_succeeds ChatMessageRequestSchema
              (BodyObject (Js.String m) v)) as [[d E]|[e E]]; [|eauto].
  apply ChatMessageRequestSchema_accepts in E
    as (m' & v' & EB & H1 & H2 & _).
  injection EB as <- <-. pose proof (trim_length m). lia.
Qed.

(** A session id that is present and not a UUID does not validate. *)
Lemma ChatMessageRequestSchema_rejects_session (mv v : Js.value) :
  v <> Js.Undefined ->
  (forall s, v = Js.String s -> is_uuid s = false) ->
  exists error,
    validateRequest ChatMessageRequestSchema (BodyObject mv v)
    = Failure error.
Proof.
  intros NU NV.
  destruct (validateRequest_fails_or_succeeds ChatMessageRequestSchema
              (BodyObject mv v)) as [[d E]|[e E]]; [|eauto].
  apply ChatMessageRequestSchema_accepts in E
    as (m' & v' & EB & _ & _ & _ & HS).
  injection EB as _ <-.
  destruct HS as [[-> _]|(s & -> & U & _)]; [contradiction|].
  rewrite (NV s eq_refl) in U. discriminate.
Qed.

End ValidationFacts.

(** ** The store *)

Lemma eqb_eq (a b : jsstring) : Js.eqb a b = true <-> a = b.
Proof.
  unfold Js.eqb. destruct (list_eq_dec N.eq_dec a b); split;
    intros; try assumption; try reflexivity; try discriminate; contradiction.
Qed.

Lemma eqb_refl (a : jsstring) : Js.eqb a a = true.
Proof. now apply eqb_eq. Qed.

Lemma existsb_filter_length {A : Type} (p : A -> bool) (l : list A) :
  existsb p l = (0 <? Z.of_nat (List.length (filter p l))).
Proof.
  induction l as [|a l IH]; simpl; [reflexivity|].
  destruct (p a); simpl; [|exact IH].
  symmetry. apply Z.ltb_lt. lia.
Qed.

Lemma conversation_known (id : jsstring) (st : Store) :
  existsb (fun c => Js.eqb (Conversation.id c) id) (conversations st)
  = (0 <? count_conversations id st).
Proof. apply existsb_filter_length. Qed.

Section TurnFacts.
Context {P : Platform}.

(** The value of one validated chat turn, statement by statement: the
    conversation row is added when none has the session id; a message
    id already in the table makes that INSERT throw, and the turn then
    answers 500 with the earlier writes kept. *)
Lemma chat_turn_value (env : Env) (body : Body)
  (data : ChatMessageRequest) (st : Store) :
  validateRequest ChatMessageRequestSchema body = Success data ->
  let sid := Js.or (sessionId data) (freshSessionId env) in
  let umsg := {| Message.id := userMessageId env;
                 Message.conversationId := sid;
                 Message.sender := user;
                 Message.text := message data;
                 Message.timestamp := now_user env |} in
  let reply :=
    match llmService env with
    | None => Js.lit "Sorry, the AI service is currently unavailable."
    | Some svc =>
        reply_or_caught svc
          (rev (select_desc_limit sid 10 (messages st ++ [umsg])))
          (message data)
    end in
  let amsg := {| Message.id := aiMessageId env;
                 Message.conversationId := sid;
                 Message.sender := ai;
                 Message.text := reply;
                 Message.timestamp := now_ai env |} in
  let dup id l := existsb (fun m => Js.eqb (Message.id m) id) l in
  let failed :=
    ErrorResponse 500
      (Js.or (Some (sqlite_message UniqueConstraint))
             (Js.lit "Internal server error"))
      (now_error env) in
  let st1 :=
    if 0 <? count_conversations sid st then st
    else {| conversations :=
              conversations st
              ++ [{| Conversation.id := sid;
                     Conversation.createdAt := now_conversation env |}];
            messages := messages st |} in
  post_chat_message env body st
  = if dup (userMessageId env) (messages st) then (st1, failed)
    else if dup (aiMessageId env) (messages st ++ [umsg])
    then ({| conversations := conversations st1;
             messages := messages st ++ [umsg] |}, failed)
    else ({| conversations := conversations st1;
             messages := (messages st ++ [umsg]) ++ [amsg] |},
          ChatMessageResponse reply sid).
Proof.
  intros V sid umsg reply amsg dup failed st1.
  unfold post_chat_message, asyncHandler, chat_message_body.
  rewrite V. fold sid.
  unfold bind, ret, conversationExists, createConversation, createMessage,
    getConversationHistory.
  assert (KN : forall cs,
             existsb (fun c => Js.eqb (Conversation.id c) sid)
               (cs ++ [{| Conversation.id := sid;
                          Conversation.createdAt := now_conversation env |}])
             = true).
  { intros cs. rewrite existsb_app. cbn. rewrite eqb_refl.
    now rewrite orb_true_r. }
  destruct (0 <? count_conversations sid st) eqn:K;
    cbn [negb conversations messages];
    rewrite (conversation_known sid st), K;
    cbn [negb conversations messages];
    fold umsg; fold (dup (userMessageId env) (messages st));
    destruct (dup (userMessageId env) (messages st)); try reflexivity;
    rewrite ?KN, ?(conversation_known sid st), ?K, andb_false_r;
    subst reply amsg;
    destruct (llmService env) as [svc|];
    cbn [conversations messages];
    fold (dup (aiMessageId env) (messages st ++ [umsg]));
    destruct (dup (aiMessageId env) (messages st ++ [umsg]));
    try reflexivity;
    rewrite ?KN, ?(conversation_known sid st), ?K, andb_false_r;
    reflexivity.
Qed.

End TurnFacts.

(** ** Ordered reads *)

Section Ordering.
Variable le : Row -> Row -> bool.
Hypothesis le_total : forall a b, le a b = false -> le b a = true.
Hypothesis le_trans :
  forall a b c, le a b = true -> le b c = true -> le a c = true.

Lemma insert_row_perm (x : Row) (l : list Row) :
  Permutation (insert_row le x l) (x :: l).
Proof.
  induction l as [|y r IH]; simpl; [reflexivity|].
  destruct (le x y); [reflexivity|].
  rewrite IH. apply perm_swap.
Qed.

Lemma ordered_perm (l : list Row) : Permutation (ordered le l) l.
Proof.
  induction l as [|x l IH]; simpl; [reflexivity|].
  rewrite insert_row_perm. now constructor.
Qed.

Lemma insert_row_sorted (x : Row) (l : list Row) :
  StronglySorted (fun a b => le a b = true) l ->
  StronglySorted (fun a b => le a b = true) (insert_row le x l).
Proof.
  induction l as [|y r IH]; intros S; simpl.
  - constructor; constructor.
  - inversion S as [|? ? Sr Fy]; subst.
    destruct (le x y) eqn:E.
    + constructor; [exact S|]. constructor; [exact E|].
      eapply Forall_impl; [|exact Fy]. intros z Hz. exact (le_trans _ _ _ E Hz).
    + constructor; [now apply IH|].
      apply Forall_forall. intros z Hz.
      apply (Permutation_in _ (insert_row_perm x r)) in Hz.
      destruct Hz as [<-|Hz]; [now apply le_total|].
      rewrite Forall_forall in Fy. now apply Fy.
Qed.

Lemma ordered_sorted (l : list Row) :
  StronglySorted (fun a b => le a b = true) (ordered le l).
Proof.
  induction l as [|x l IH]; simpl; [constructor|].
  now apply insert_row_sorted.
Qed.

End Ordering.

Lemma StronglySorted_snoc {A : Type} (R : A -> A -> Prop) (l : list A) (a : A) :
  StronglySorted R l -> Forall (fun x => R x a) l ->
  StronglySorted R (l ++ [a]).
Proof.
  induction l as [|x l IH]; intros S F; simpl.
  - constructor; constructor.
  - inversion S as [|? ? Sl Fx]; subst. inversion F as [|? ? Rx Fl]; subst.
    constructor; [now apply IH|].
    apply Forall_app; split; [exact Fx|]. now constructor.
Qed.

Lemma StronglySorted_rev {A : Type} (R : A -> A -> Prop) (l : list A) :
  StronglySorted R l -> StronglySorted (fun a b => R b a) (rev l).
Proof.
  induction 1 as [|a l S IH F]; simpl; [constructor|].
  apply StronglySorted_snoc; [exact IH|].
  apply Forall_rev. exact F.
Qed.

Lemma StronglySorted_map {A B : Type} (f : A -> B) (R : A -> A -> Prop)
  (Q : B -> B -> Prop) (l : list A) :
  (forall a b, R a b -> Q (f a) (f b)) ->
  StronglySorted R l -> StronglySorted Q (map f l).
Proof.
  intros H. induction 1 as [|a l S IH F]; simpl; constructor.
  - exact IH.
  - apply Forall_map. eapply Forall_impl; [|exact F]. intros b. apply H.
Qed.

(** Two orderings of the same rows agree when distinct rows never
    compare both ways. *)
Lemma sorted_unique (R : Row -> Row -> Prop) :
  (forall a b, R a b -> R b a -> rowid a = rowid b) ->
  forall l1 l2,
    NoDup (map rowid l1) ->
    StronglySorted R l1 -> StronglySorted R l2 -> Permutation l1 l2 ->
    l1 = l2.
Proof.
  intros anti. induction l1 as [|a l1 IH]; intros l2 ND S1 S2 Pm.
  - apply Permutation_nil in Pm. now subst.
  - destruct l2 as [|b l2].
    { apply Permutation_sym, Permutation_nil in Pm. discriminate. }
    inversion S1 as [|? ? S1' F1]; subst.
    inversion S2 as [|? ? S2' F2]; subst.
    inversion ND as [|? ? NI ND']; subst.
    rewrite Forall_forall in F1, F2.
    assert (a = b) as <-.
    { assert (Ha : In a (b :: l2))
        by (eapply Permutation_in; [exact Pm|now left]).
      assert (Hb : In b (a :: l1))
        by (eapply Permutation_in; [symmetry; exact Pm|now left]).
      destruct Ha as [->|Ha]; [reflexivity|].
      destruct Hb as [->|Hb]; [reflexivity|].
      exfalso. apply NI.
      rewrite (anti a b (F1 _ Hb) (F2 _ Ha)).
      now apply in_map. }
    f_equal. apply IH; try assumption.
    now apply Permutation_cons_inv in Pm.
Qed.

Lemma index_le_total (a b : Row) : index_le a b = false -> index_le b a = true.
Proof.
  unfold index_le.
  destruct (Z.ltb_spec (Message.timestamp (snd a)) (Message.timestamp (snd b)));
    destruct (Z.ltb_spec (Message.timestamp (snd b)) (Message.timestamp (snd a)));
    destruct (Z.eqb_spec (Message.timestamp (snd a)) (Message.timestamp (snd b)));
    destruct (Z.eqb_spec (Message.timestamp (snd b)) (Message.timestamp (snd a)));
    destruct (Nat.leb_spec (rowid a) (rowid b));
    destruct (Nat.leb_spec (rowid b) (rowid a));
    simpl; intros; try reflexivity; try discriminate; lia.
Qed.

Lemma index_le_spec (a b : Row) :
  index_le a b = true
  <-> Message.timestamp (snd a) < Message.timestamp (snd b)
      \/ Message.timestamp (snd a) = Message.timestamp (snd b)
         /\ (rowid a <= rowid b)%nat.
Proof.
  unfold index_le.
  rewrite orb_true_iff, andb_true_iff, Z.ltb_lt, Z.eqb_eq, Nat.leb_le.
  reflexivity.
Qed.

Lemma index_le_trans (a b c : Row) :
  index_le a b = true -> index_le b c = true -> index_le a c = true.
Proof. rewrite !index_le_spec. lia. Qed.

Lemma index_le_antisym (a b : Row) :
  index_le a b = true -> index_le b a = true -> rowid a = rowid b.
Proof. rewrite !index_le_spec. lia. Qed.

Lemma table_scan_rowids (tbl : list Message.t) (start : nat) :
  map fst (combine (seq start (List.length tbl)) tbl)
  = seq start (List.length tbl).
Proof.
  revert start. induction tbl as [|m tbl IH]; intros start; simpl;
    [reflexivity|]. now rewrite IH.
Qed.

Lemma filter_keeps_rowids (keep : Row -> bool) (rows : list Row) :
  NoDup (map rowid rows) -> NoDup (map rowid (filter keep rows)).
Proof.
  intros ND. induction rows as [|a l IH]; simpl; [constructor|].
  simpl in ND. apply NoDup_cons_iff in ND as [NI ND'].
  destruct (keep a); simpl; [|now apply IH].
  constructor; [|now apply IH].
  intros H. apply NI. apply in_map_iff in H as (x & E & Hx).
  apply filter_In in Hx as [Hx _]. rewrite <- E. now apply in_map.
Qed.

Lemma where_conversationId_rowids (c : jsstring) (tbl : list Message.t) :
  NoDup (map rowid (where_conversationId c tbl)).
Proof.
  unfold where_conversationId, table_scan. apply filter_keeps_rowids.
  unfold rowid. rewrite table_scan_rowids. apply seq_NoDup.
Qed.

Lemma where_conversationId_rows (c : jsstring) (tbl : list Message.t) :
  map snd (where_conversationId c tbl)
  = filter (fun m => Js.eqb (Message.conversationId m) c) tbl.
Proof.
  unfold where_conversationId, table_scan. generalize 0%nat.
  induction tbl as [|m tbl IH]; intros start; simpl; [reflexivity|].
  destruct (Js.eqb (Message.conversationId m) c); simpl; now rewrite IH.
Qed.

(** Walking the index backward yields the forward walk reversed. *)
Lemma backward_is_reversed_forward (c : jsstring) (tbl : list Message.t) :
  ordered index_ge (where_conversationId c tbl)
  = rev (ordered index_le (where_conversationId c tbl)).
Proof.
  apply (sorted_unique (fun a b => index_ge a b = true)).
  - unfold index_ge. intros a b H1 H2. now apply index_le_antisym.
  - apply (Permutation_NoDup (l := map rowid (where_conversationId c tbl))).
    + apply Permutation_map. symmetry. apply ordered_perm.
    + apply where_conversationId_rowids.
  - apply ordered_sorted; unfold index_ge.
    + intros a b. apply index_le_total.
    + intros a b d H1 H2. exact (index_le_trans _ _ _ H2 H1).
  - apply (StronglySorted_rev (fun a b => index_le a b = true)).
    apply ordered_sorted; [exact index_le_total|exact index_le_trans].
  - rewrite ordered_perm, <- Permutation_rev. symmetry. apply ordered_perm.
Qed.

Lemma select_asc_sorted (c : jsstring) (tbl : list Message.t) :
  StronglySorted (fun a b => Message.timestamp a <= Message.timestamp b)
    (select_asc c tbl).
Proof.
  unfold select_asc.
  apply (StronglySorted_map snd (fun a b => index_le a b = true)).
  - intros a b H. apply index_le_spec in H. lia.
  - apply ordered_sorted; [exact index_le_total|exact index_le_trans].
Qed.

Lemma select_asc_rows (c : jsstring) (tbl : list Message.t) :
  Permutation (select_asc c tbl)
    (filter (fun m => Js.eqb (Message.conversationId m) c) tbl).
Proof.
  unfold select_asc. rewrite <- where_conversationId_rows.
  apply Permutation_map, ordered_perm.
Qed.

Lemma history_is_tail (c : jsstring) (n : nat) (tbl : list Message.t) :
  rev (select_desc_limit c n tbl) = last_entries n (select_asc c tbl).
Proof.
  unfold select_desc_limit, select_asc, last_entries.
  rewrite backward_is_reversed_forward, map_rev, firstn_rev, rev_involutive.
  reflexivity.
Qed.

Lemma StronglySorted_skipn {A : Type} (R : A -> A -> Prop) (n : nat)
  (l : list A) :
  StronglySorted R l -> StronglySorted R (skipn n l).
Proof.
  revert l. induction n as [|n IH]; intros l S; [exact S|].
  destruct l as [|a l]; [constructor|]. simpl.
  inversion S; subst. now apply IH.
Qed.

(** ** The Reply Generator *)

Lemma rethrown_message_kind (raw : option jsstring) :
  rethrown_message raw = kind_message (kind_of_error raw).
Proof.
  unfold rethrown_message, kind_of_error.
  destruct (message_includes raw (Js.lit "API key")
            || message_includes raw (Js.lit "API_KEY")); [reflexivity|].
  destruct (message_includes raw (Js.lit "quota")
            || message_includes raw (Js.lit "rate limit")); [reflexivity|].
  destruct (message_includes raw (Js.lit "timeout")); reflexivity.
Qed.

Lemma kind_message_safe (k : ErrorKind) : In (kind_message k) user_safe_messages.
Proof. unfold user_safe_messages. destruct k; simpl; tauto. Qed.

Lemma kind_message_truthy (k : ErrorKind) (fallback : jsstring) :
  Js.or (Some (kind_message k)) fallback = kind_message k.
Proof. destruct k; reflexivity. Qed.

Section ReplyFacts.
Context {P : Platform}.

Lemma generateReply_rejects (svc : LLMService) (history : list Message.t)
  (userMessage message : jsstring) :
  generateReply svc history userMessage = inr message ->
  exists raw,
    message = kind_message (kind_of_error raw)
    /\ (generateContent svc (buildConversationContext history userMessage)
        = Rejected raw
        \/ raw = Some (Js.lit "Empty response from LLM")
           /\ exists text,
               generateContent svc
                 (buildConversationContext history userMessage)
               = Resolved text).
Proof.
  unfold generateReply.
  destruct (generateContent svc _) as [[[|c r]|]|raw] eqn:G;
    try (destruct (Js.length (Js.trim (c :: r)) =? 0); [|discriminate]);
    intros E; injection E as <-; rewrite rethrown_message_kind; eauto 6.
Qed.

Lemma generateReply_resolves (svc : LLMService) (history : list Message.t)
  (userMessage reply : jsstring) :
  generateReply svc history userMessage = inl reply ->
  reply = Js.trim reply /\ reply <> []
  /\ forallb Js.is_white reply = false.
Proof.
  unfold generateReply.
  destruct (generateContent svc _) as [[[|c r]|]|raw]; try discriminate.
  destruct (Z.eqb_spec (Js.length (Js.trim (c :: r))) 0) as [|NE];
    [discriminate|].
  intros E; injection E as <-.
  assert (Js.trim (c :: r) <> []) as NN
      by (intros H; apply NE; now apply length_zero_nil).
  repeat split.
  - symmetry. apply trim_idempotent.
  - exact NN.
  - now apply trim_visible.
Qed.

(** C4. [generateReply] resolves to a trimmed string that is not empty
    and not only white space, or rejects with one of the four fixed
    messages, the one of the kind read off the error it caught; on
    rejection the handler's reply is that fixed message, so a provider
    error text outside the four never is the reply. *)
Theorem generateReply_contract (svc : LLMService)
  (history : list Message.t) (userMessage : jsstring) :
  match generateReply svc history userMessage with
  | inl reply =>
      reply = Js.trim reply /\ reply <> []
      /\ forallb Js.is_white reply = false
      /\ reply_or_caught svc history userMessage = reply
  | inr message =>
      In message user_safe_messages
      /\ (exists raw,
            message = kind_message (kind_of_error raw)
            /\ (generateContent svc
                  (buildConversationContext history userMessage)
                = Rejected raw
                \/ raw = Some (Js.lit "Empty response from LLM")
                   /\ exists text,
                       generateContent svc
                         (buildConversationContext history userMessage)
                       = Resolved text))
      /\ reply_or_caught svc history userMessage = message
      /\ (forall raw,
            generateContent svc
              (buildConversationContext history userMessage)
            = Rejected (Some raw) ->
            ~ In raw user_safe_messages ->
            reply_or_caught svc history userMessage <> raw)
  end.
Proof.
  unfold reply_or_caught.
  destruct (generateReply svc history userMessage) as [reply|message] eqn:G.
  - apply generateReply_resolves in G as (H1 & H2 & H3). now repeat split.
  - pose proof (generateReply_rejects _ _ _ _ G) as (raw & -> & Hraw).
    rewrite kind_message_truthy.
    split; [apply kind_message_safe|].
    split; [now exists raw|].
    split; [reflexivity|].
    intros raw' _ NS E. apply NS. rewrite <- E. apply kind_message_safe.
Qed.

End ReplyFacts.

(** ** The Conversation Store *)

(** C3. [getConversationHistory id n] returns at most [n] messages: the
    last [n] entries of [getMessages id], in the same ascending order,
    whatever [n] and whether or not timestamps tie. *)
Theorem history_is_last_entries (id : jsstring) (n : nat) (st : Store) :
  exists history full,
    getConversationHistory id n st = (st, Returned history)
    /\ getMessages id st = (st, Returned full)
    /\ (List.length history <= n)%nat
    /\ history = last_entries n full
    /\ StronglySorted
         (fun a b => Message.timestamp a <= Message.timestamp b) history.
Proof.
  exists (rev (select_desc_limit id n (messages st))),
    (select_asc id (messages st)).
  repeat split.
  - rewrite length_rev. unfold select_desc_limit. apply firstn_le_length.
  - apply history_is_tail.
  - rewrite history_is_tail. unfold last_entries.
    apply StronglySorted_skipn, select_asc_sorted.
Qed.

(** Four rows with tied timestamps: a history of three is the table
    without its first row, in insertion order. *)
Lemma tied_history_example :
  map Message.timestamp (messages store_after_two_turns)
  = repeat 1703347200000 4
  /\ getConversationHistory sample_session 3 store_after_two_turns
     = (store_after_two_turns,
        Returned (skipn 1 (messages store_after_two_turns))).
Proof. split; vm_compute; reflexivity. Qed.

Section StoreFacts.
Context {P : Platform}.

Lemma run_op_appends (op : StoreOp) (st : Store) :
  exists cs ms,
    conversations (run_op op st) = conversations st ++ cs
    /\ messages (run_op op st) = messages st ++ ms.
Proof.
  destruct op as [id now|id|id c s t now|c|c n|id]; simpl;
    try (exists [], []; now rewrite !app_nil_r).
  - unfold createConversation.
    destruct (existsb _ (conversations st)); simpl.
    + exists [], []. now rewrite !app_nil_r.
    + eexists. exists []. simpl.
      split; [reflexivity|now rewrite app_nil_r].
  - unfold createMessage.
    destruct (existsb _ (messages st)); simpl.
    + exists [], []. now rewrite !app_nil_r.
    + destruct (foreign_keys && _); simpl.
      * exists [], []. now rewrite !app_nil_r.
      * exists []. eexists. simpl.
        split; [now rewrite app_nil_r|reflexivity].
Qed.

(** C7. After any sequence of store operations both tables are the
    earlier tables with rows appended: every row persisted before is
    still there, at its rowid, unchanged. *)
Theorem store_is_append_only (ops : list StoreOp) (st : Store) :
  exists cs ms,
    conversations (run_ops ops st) = conversations st ++ cs
    /\ messages (run_ops ops st) = messages st ++ ms.
Proof.
  unfold run_ops. revert st.
  induction ops as [|op ops IH]; intros st; simpl.
  - exists [], []. now rewrite !app_nil_r.
  - destruct (IH (run_op op st)) as (cs2 & ms2 & E1 & E2).
    destruct (run_op_appends op st) as (cs1 & ms1 & F1 & F2).
    exists (cs1 ++ cs2), (ms1 ++ ms2).
    rewrite E1, E2, F1, F2, !app_assoc. now split.
Qed.

(** C5. With a well-formed session id, the history route answers 404
    "Conversation not found" when no conversation row has that id, and
    otherwise 200 with the rows of that conversation, all of them and
    no other, by ascending timestamp. *)
Theorem history_route (env : Env) (s : jsstring) (st : Store) :
  is_uuid s = true ->
  (count_conversations s st = 0 ->
   get_chat_history env s st
   = (st, ErrorResponse 404 (Js.lit "Conversation not found")
            (now_error env)))
  /\ (0 < count_conversations s st ->
      exists msgs,
        get_chat_history env s st = (st, HistoryResponse msgs s)
        /\ status (HistoryResponse msgs s) = 200
        /\ Permutation msgs
             (filter (fun m => Js.eqb (Message.conversationId m) s)
                     (messages st))
        /\ StronglySorted
             (fun a b => Message.timestamp a <= Message.timestamp b) msgs).
Proof.
  intros U.
  unfold get_chat_history, asyncHandler, chat_history_body,
    validateRequest, SessionIdParamSchema.
  rewrite U. cbn [param_sessionId].
  unfold bind, conversationExists, getMessages, ret.
  split; intros C.
  - rewrite C. reflexivity.
  - apply Z.ltb_lt in C. rewrite C. cbn [negb].
    exists (select_asc s (messages st)). repeat split.
    + apply select_asc_rows.
    + apply select_asc_sorted.
Qed.

End StoreFacts.

(** ** The chat turn *)

Lemma count_conversations_snoc (id : jsstring) (st : Store)
  (row : Conversation.t) (ms : list Message.t) :
  count_conversations id
    {| conversations := conversations st ++ [row]; messages := ms |}
  = count_conversations id st
    + (if Js.eqb (Conversation.id row) id then 1 else 0).
Proof.
  unfold count_conversations. cbn [conversations].
  rewrite filter_app, length_app. simpl.
  destruct (Js.eqb (Conversation.id row) id); simpl; lia.
Qed.

Lemma count_conversations_rows (id : jsstring) (st st' : Store) :
  conversations st' = conversations st ->
  count_conversations id st' = count_conversations id st.
Proof. unfold count_conversations. now intros ->. Qed.

Lemma count_after_insert (id : jsstring) (st st' : Store)
  (row : Conversation.t) :
  count_conversations id st = 0 ->
  conversations st' = conversations st ++ [row] ->
  Conversation.id row = id ->
  count_conversations id st' = 1.
Proof.
  intros Z0 E I.
  rewrite (count_conversations_rows id
             {| conversations := conversations st ++ [row];
                messages := messages st |} st' E),
    count_conversations_snoc, I, eqb_refl. lia.
Qed.

Section ChatTurn.
Context {P : Platform}.

Lemma chat_turn_rejected (env : Env) (body : Body) (st : Store)
  (error : jsstring) :
  validateRequest ChatMessageRequestSchema body = Failure error ->
  post_chat_message env body st
  = (st, ErrorResponse 400 error (now_error env)).
Proof.
  intros V. unfold post_chat_message, asyncHandler, chat_message_body.
  now rewrite V.
Qed.

Lemma uuid_truthy (s fresh : jsstring) :
  is_uuid s = true -> Js.or (Some s) fresh = s.
Proof.
  destruct s; [|reflexivity]. rewrite uuid_rejects_empty. discriminate.
Qed.

(** C1 (amended). The schema accepts a body exactly when [message] is
    a string of at most 2000 characters as sent and at least one
    character once trimmed, and [sessionId] is absent or a well-formed
    UUID; the accepted message is the trimmed string.  A message that
    trims to nothing or to more than 2000 characters is answered 400
    and leaves the store as it was. *)
Theorem chat_message_validation :
  (forall (body : Body) (data : ChatMessageRequest),
      validateRequest ChatMessageRequestSchema body = Success data
      <-> exists m v,
            body = BodyObject (Js.String m) v
            /\ Js.length m <= 2000
            /\ 1 <= Js.length (Js.trim m)
            /\ message data = Js.trim m
            /\ (v = Js.Undefined /\ sessionId data = None
                \/ exists s, v = Js.String s /\ is_uuid s = true
                             /\ sessionId data = Some s))
  /\ (forall (m : jsstring) (v : Js.value) (env : Env) (st : Store),
         Js.length (Js.trim m) = 0 \/ 2000 < Js.length (Js.trim m) ->
         exists error,
           post_chat_message env (BodyObject (Js.String m) v) st
           = (st, ErrorResponse 400 error (now_error env))).
Proof.
  split.
  - exact ChatMessageRequestSchema_accepts.
  - intros m v env st H.
    destruct (ChatMessageRequestSchema_rejects m v H) as [error E].
    exists error. now apply chat_turn_rejected.
Qed.

(** C8. A session id that is present and not a well-formed UUID is
    answered 400 by both routes, and the store is left as it was. *)
Theorem malformed_session_is_400 (env : Env) (st : Store) :
  (forall mv v : Js.value,
      v <> Js.Undefined ->
      (forall s, v = Js.String s -> is_uuid s = false) ->
      exists error,
        post_chat_message env (BodyObject mv v) st
        = (st, ErrorResponse 400 error (now_error env)))
  /\ (forall s : jsstring,
         is_uuid s = false ->
         exists error,
           get_chat_history env s st
           = (st, ErrorResponse 400 error (now_error env))).
Proof.
  split.
  - intros mv v NU NV.
    destruct (ChatMessageRequestSchema_rejects_session mv v NU NV)
      as [error E].
    exists error. now apply chat_turn_rejected.
  - intros s U.
    unfold get_chat_history, asyncHandler, chat_history_body,
      validateRequest, SessionIdParamSchema.
    rewrite U. eexists. reflexivity.
Qed.

(** C9. In a turn answered 200 the table gains two rows: the [user]
    row holds the trimmed inbound message and the [ai] row holds the
    [reply] of the response body. *)
Theorem turn_log_matches_reply (env : Env) (body : Body) (st st' : Store)
  (reply sid : jsstring) :
  post_chat_message env body st = (st', ChatMessageResponse reply sid) ->
  exists m v,
    body = BodyObject (Js.String m) v
    /\ messages st'
       = messages st
         ++ [{| Message.id := userMessageId env;
                Message.conversationId := sid;
                Message.sender := user;
                Message.text := Js.trim m;
                Message.timestamp := now_user env |};
             {| Message.id := aiMessageId env;
                Message.conversationId := sid;
                Message.sender := ai;
                Message.text := reply;
                Message.timestamp := now_ai env |}].
Proof.
  intros E.
  destruct (validateRequest_fails_or_succeeds ChatMessageRequestSchema body)
    as [[data V]|[error V]].
  2:{ rewrite (chat_turn_rejected env body st error V) in E. discriminate. }
  pose proof (chat_turn_value env body data st V) as T. cbv beta zeta in T.
  rewrite E in T.
  apply ChatMessageRequestSchema_accepts in V
    as (m & v & -> & _ & _ & HM & _).
  exists m, v. split; [reflexivity|].
  destruct (existsb _ (messages st)); [discriminate|].
  destruct (existsb _ (messages st ++ _)); [discriminate|].
  injection T as -> -> ->. cbn [messages].
  rewrite HM, <- app_assoc. reflexivity.
Qed.

(** C10. The session id of a 200 response is the supplied one when the
    request supplied one, and the freshly generated one only when the
    request had none. *)
Theorem response_session_id (env : Env) (body : Body) (st st' : Store)
  (reply sid : jsstring) :
  post_chat_message env body st = (st', ChatMessageResponse reply sid) ->
  (exists mv s,
      body = BodyObject mv (Js.String s) /\ is_uuid s = true /\ sid = s)
  \/ (exists mv,
         body = BodyObject mv Js.Undefined /\ sid = freshSessionId env).
Proof.
  intros E.
  destruct (validateRequest_fails_or_succeeds ChatMessageRequestSchema body)
    as [[data V]|[error V]].
  2:{ rewrite (chat_turn_rejected env body st error V) in E. discriminate. }
  pose proof (chat_turn_value env body data st V) as T. cbv beta zeta in T.
  rewrite E in T.
  assert (sid = Js.or (sessionId data) (freshSessionId env)) as ->.
  { destruct (existsb _ (messages st)); [discriminate|].
    destruct (existsb _ (messages st ++ _)); [discriminate|].
    now injection T. }
  apply ChatMessageRequestSchema_accepts in V
    as (m & v & -> & _ & _ & _ & [[-> ->]|(s & -> & U & ->)]).
  - right. now exists (Js.String m).
  - left. exists (Js.String m), s. rewrite (uuid_truthy _ _ U). now repeat split.
Qed.

End ChatTurn.

Section TurnCompletion.
Context {P : Platform}.

Lemma reply_or_caught_cases (svc : LLMService) (history : list Message.t)
  (message : jsstring) :
  match generateReply svc history message with
  | inl reply => reply_or_caught svc history message = reply
  | inr error =>
      reply_or_caught svc history message = error
      /\ In error user_safe_messages
  end.
Proof.
  unfold reply_or_caught.
  destruct (generateReply svc history message) as [reply|error] eqn:G;
    [reflexivity|].
  apply generateReply_rejects in G as (raw & -> & _).
  rewrite kind_message_truthy. split; [reflexivity|apply kind_message_safe].
Qed.

(** C2 (amended). Once the [user] row is written (its id was not in
    the table) it stays, and whatever the Reply Generator does the reply
    is settled: when it rejects, the reply is its fixed message.  If the
    INSERT of the [ai] row succeeds (its id is not in the table either),
    the [ai] row with the reply follows the [user] row and the turn is
    answered 200 with that reply; if that INSERT throws, the turn is
    answered 500 and the [user] row is the last one. *)
Theorem persisted_turn_outcome (env : Env) (body : Body)
  (data : ChatMessageRequest) (st : Store) :
  validateRequest ChatMessageRequestSchema body = Success data ->
  existsb (fun m => Js.eqb (Message.id m) (userMessageId env)) (messages st)
  = false ->
  let sid := Js.or (sessionId data) (freshSessionId env) in
  let umsg := {| Message.id := userMessageId env;
                 Message.conversationId := sid;
                 Message.sender := user;
                 Message.text := message data;
                 Message.timestamp := now_user env |} in
  let history := rev (select_desc_limit sid 10 (messages st ++ [umsg])) in
  exists reply,
    (llmService env = None ->
     reply = Js.lit "Sorry, the AI service is currently unavailable.")
    /\ (forall svc,
           llmService env = Some svc ->
           match generateReply svc history (message data) with
           | inl generated => reply = generated
           | inr error => reply = error /\ In error user_safe_messages
           end)
    /\ (existsb (fun m => Js.eqb (Message.id m) (aiMessageId env))
          (messages st ++ [umsg]) = false ->
        snd (post_chat_message env body st) = ChatMessageResponse reply sid
        /\ status (snd (post_chat_message env body st)) = 200
        /\ messages (fst (post_chat_message env body st))
           = messages st
             ++ [umsg;
                 {| Message.id := aiMessageId env;
                    Message.conversationId := sid;
                    Message.sender := ai;
                    Message.text := reply;
                    Message.timestamp := now_ai env |}])
    /\ (existsb (fun m => Js.eqb (Message.id m) (aiMessageId env))
          (messages st ++ [umsg]) = true ->
        status (snd (post_chat_message env body st)) = 500
        /\ messages (fst (post_chat_message env body st))
           = messages st ++ [umsg]).
Proof.
  intros V FU sid umsg history.
  pose proof (chat_turn_value env body data st V) as T. cbv beta zeta in T.
  fold sid in T. fold umsg in T. rewrite FU in T.
  exists (match llmService env with
          | Some svc => reply_or_caught svc history (message data)
          | None => Js.lit "Sorry, the AI service is currently unavailable."
          end).
  split; [now intros ->|]. split.
  - intros svc ->.
    pose proof (reply_or_caught_cases svc history (message data)) as C.
    destruct (generateReply svc history (message data)); exact C.
  - split; intros FA; rewrite FA in T; rewrite T;
      cbn [fst snd status messages].
    + split; [reflexivity|]. split; [reflexivity|].
      now rewrite <- app_assoc.
    + split; reflexivity.
Qed.

Lemma turn_conversations (env : Env) (mv : Js.value) (s : jsstring)
  (st : Store) :
  is_uuid s = true ->
  let r := post_chat_message env (BodyObject mv (Js.String s)) st in
  (conversations (fst r) = conversations st
   \/ count_conversations s st = 0
      /\ conversations (fst r)
         = conversations st
           ++ [{| Conversation.id := s;
                  Conversation.createdAt := now_conversation env |}])
  /\ (status (snd r) = 200 -> 0 < count_conversations s (fst r)).
Proof.
  intros U r. subst r.
  destruct (validateRequest_fails_or_succeeds ChatMessageRequestSchema
              (BodyObject mv (Js.String s))) as [[data V]|[error V]].
  2:{ rewrite (chat_turn_rejected env _ st error V). cbn.
      split; [now left|discriminate]. }
  pose proof (chat_turn_value env _ data st V) as T. cbv beta zeta in T.
  apply ChatMessageRequestSchema_accepts in V
    as (m & v & EB & _ & _ & _ & HS).
  injection EB as -> <-.
  destruct HS as [[? _]|(s' & ES & _ & HS)]; [discriminate|].
  injection ES as <-. rewrite HS, (uuid_truthy _ _ U) in T.
  assert (C : conversations
                (fst (post_chat_message env
                        (BodyObject (Js.String m) (Js.String s)) st))
              = conversations
                  (if 0 <? count_conversations s st then st
                   else {| conversations :=
                             conversations st
                             ++ [{| Conversation.id := s;
                                    Conversation.createdAt :=
                                      now_conversation env |}];
                           messages := messages st |})).
  { rewrite T.
    destruct (existsb _ (messages st)); [reflexivity|].
    destruct (existsb _ (messages st ++ _)); reflexivity. }
  rewrite C. clear T.
  destruct (Z.ltb_spec 0 (count_conversations s st)) as [K|K].
  - split; [now left|]. intros _.
    now rewrite (count_conversations_rows s st _ C).
  - assert (count_conversations s st = 0)
      by (unfold count_conversations in *; lia).
    split; [right; now split|]. intros _.
    rewrite (count_conversations_rows s _ _ C), count_conversations_snoc.
    cbn [Conversation.id]. rewrite eqb_refl. lia.
Qed.


End TurnCompletion.

(** ** The properties at work on the sample platform *)

(** One visible character padded to 2001: the trimmed length is 1, yet
    the schema refuses the body and the route answers 400. *)
Lemma padded_message_rejected :
  1 <= Js.length (Js.trim padded_message) <= 2000
  /\ @validateRequest Body ChatMessageRequest
       (@ChatMessageRequestSchema sample_platform)
       (BodyObject (Js.String padded_message) Js.Undefined)
     = Failure
         (Js.lit "Message is too long. Please keep it under 2000 characters.")
  /\ status
       (snd (@post_chat_message sample_platform (sample_env None 1)
               (BodyObject (Js.String padded_message) Js.Undefined)
               empty_store))
     = 400.
Proof.
  split; [|split].
  - vm_compute. split; discriminate.
  - vm_compute. reflexivity.
  - vm_compute. reflexivity.
Qed.

Lemma chat_message_validation_witness :
  Js.length (Js.trim (Js.lit "   ")) = 0
  /\ exists error,
      @post_chat_message sample_platform (sample_env None 1)
        (BodyObject (Js.String (Js.lit "   ")) Js.Undefined) empty_store
      = (empty_store, ErrorResponse 400 error (now_error (sample_env None 1))).
Proof.
  split; [reflexivity|].
  apply (proj2 (@chat_message_validation sample_platform)).
  left. reflexivity.
Defined.

(** A runtime that hands the [ai] row the id of the [user] row: the
    request validates, the [user] row is written and is the only row,
    and the answer is 500. *)
Lemma colliding_ai_id_answers_500 :
  @validateRequest Body ChatMessageRequest
    (@ChatMessageRequestSchema sample_platform) hello_body
  = Success hello_data
  /\ map Message.text
       (messages (fst (@post_chat_message sample_platform colliding_env
                         hello_body empty_store)))
     = [Js.lit "hello"]
  /\ map Message.sender
       (messages (fst (@post_chat_message sample_platform colliding_env
                         hello_body empty_store)))
     = [user]
  /\ status (snd (@post_chat_message sample_platform colliding_env hello_body
                    empty_store))
     = 500.
Proof. repeat split; vm_compute; reflexivity. Qed.

Lemma persisted_turn_outcome_witness :
  exists reply,
    snd (@post_chat_message sample_platform
           (sample_env (Some failing_service) 1) hello_body empty_store)
    = ChatMessageResponse reply sample_session
    /\ In reply user_safe_messages.
Proof.
  destruct (@persisted_turn_outcome sample_platform
              (sample_env (Some failing_service) 1) hello_body hello_data
              empty_store eq_refl eq_refl)
    as (reply & _ & F & OK & _).
  exists reply. split; [exact (proj1 (OK eq_refl))|].
  destruct (F failing_service eq_refl) as [-> S]. exact S.
Defined.

Lemma generateReply_contract_witness :
  @reply_or_caught sample_platform failing_service [] (Js.lit "hi")
  = Js.lit "Rate limit reached. Please try again in a moment."
  /\ In (Js.lit "Rate limit reached. Please try again in a moment.")
        user_safe_messages.
Proof.
  pose proof (@generateReply_contract sample_platform failing_service []
                (Js.lit "hi")) as H.
  change (@generateReply sample_platform failing_service [] (Js.lit "hi"))
    with (@inr jsstring jsstring
            (Js.lit "Rate limit reached. Please try again in a moment."))
    in H.
  destruct H as (H1 & _ & H3 & _). split; assumption.
Defined.

Lemma history_route_witness :
  @is_uuid sample_platform sample_session = true
  /\ 0 < count_conversations sample_session store_after_hello
  /\ exists msgs,
      @get_chat_history sample_platform (sample_env None 2) sample_session
        store_after_hello
      = (store_after_hello, HistoryResponse msgs sample_session)
      /\ List.length msgs = 2%nat.
Proof.
  split; [reflexivity|]. split; [reflexivity|].
  destruct (proj2 (@history_route sample_platform (sample_env None 2)
                     sample_session store_after_hello eq_refl) eq_refl)
    as (msgs & E & _ & Pm & _).
  exists msgs. split; [exact E|].
  apply Permutation_length in Pm. exact Pm.
Defined.


Lemma malformed_session_is_400_witness :
  exists error,
    @post_chat_message sample_platform (sample_env None 1)
      (BodyObject (Js.String (Js.lit "hello"))
                  (Js.String (Js.lit "not-a-uuid")))
      empty_store
    = (empty_store, ErrorResponse 400 error (now_error (sample_env None 1))).
Proof.
  apply (proj1 (@malformed_session_is_400 sample_platform
                  (sample_env None 1) empty_store)).
  - discriminate.
  - intros s E. injection E as <-. reflexivity.
Defined.

Lemma turn_log_matches_reply_witness :
  map Message.text (messages store_after_hello)
  = [Js.lit "hello";
     Js.lit "Sorry, the AI service is currently unavailable."].
Proof.
  destruct (@turn_log_matches_reply sample_platform (sample_env None 1)
              hello_body empty_store store_after_hello
              (Js.lit "Sorry, the AI service is currently unavailable.")
              sample_session eq_refl)
    as (m & v & B & E).
  injection B as <- _. rewrite E. reflexivity.
Defined.

Lemma response_session_id_witness :
  (exists mv s,
      hello_body = BodyObject mv (Js.String s)
      /\ @is_uuid sample_platform s = true /\ sample_session = s)
  \/ (exists mv,
         hello_body = BodyObject mv Js.Undefined
         /\ sample_session = freshSessionId (sample_env None 1)).
Proof.
  exact (@response_session_id sample_platform (sample_env None 1) hello_body
           empty_store store_after_hello
           (Js.lit "Sorry, the AI service is currently unavailable.")
           sample_session eq_refl).
Defined.

(** * Further properties of the modules *)

(** ** validation.ts *)

Lemma or_some_nonempty (a : option jsstring) (b : jsstring) :
  b <> [] -> Js.or a b <> [].
Proof.
  intros NB. destruct a as [[|c r]|]; simpl; try exact NB. discriminate.
Qed.

Lemma length_pos_nonempty (s : jsstring) : 1 <= Js.length s <-> s <> [].
Proof.
  unfold Js.length. destruct s; simpl; split; intros H;
    try lia; try discriminate. now destruct H.
Qed.


Section SchemaFacts.
Context {P : Platform}.

(** X2. A validated chat request carries a trimmed message of 1 to 2000
    characters with a visible character, and a session id, if any, of
    UUID form. *)
Theorem validated_request_is_normal (body : Body) (data : ChatMessageRequest) :
  validateRequest ChatMessageRequestSchema body = Success data ->
  Js.trim (message data) = message data
  /\ 1 <= Js.length (message data) <= 2000
  /\ forallb Js.is_white (message data) = false
  /\ (forall s, sessionId data = Some s -> is_uuid s = true).
Proof.
  intros V. apply ChatMessageRequestSchema_accepts in V
    as (m & v & _ & H1 & H2 & HM & HS).
  rewrite HM. pose proof (trim_length m) as L.
  split; [apply trim_idempotent|]. split; [lia|]. split.
  - apply trim_visible. now apply length_pos_nonempty.
  - intros s E. destruct HS as [[_ N]|(s' & _ & U & S')]; congruence.
Qed.

(** X3. Sending validated data again validates to the same data. *)
Theorem validation_is_idempotent (body : Body) (data : ChatMessageRequest) :
  validateRequest ChatMessageRequestSchema body = Success data ->
  validateRequest ChatMessageRequestSchema
    (sendMessage_body (message data) (sessionId data))
  = Success data.
Proof.
  intros V. apply ChatMessageRequestSchema_accepts.
  apply ChatMessageRequestSchema_accepts in V
    as (m & v & _ & H1 & H2 & HM & HS).
  pose proof (trim_length m) as L.
  exists (message data). eexists. split; [reflexivity|].
  rewrite HM, trim_idempotent. repeat split; try lia.
  destruct HS as [[_ ->]|(s & _ & U & ->)]; [now left|].
  right. now exists s.
Qed.

(** X4. The error reported is that of the first rule violated, in the order
    type, empty, too long, empty once trimmed, and a message error comes
    before a session id error. *)
Theorem first_violated_rule (m : jsstring) (v : Js.value) :
  (forall x, (forall s, x <> Js.String s) ->
     validateRequest ChatMessageRequestSchema (BodyObject x v)
     = Failure (Js.lit "Message must be a string"))
  /\ (m = [] ->
      validateRequest ChatMessageRequestSchema (BodyObject (Js.String m) v)
      = Failure (Js.lit "Message cannot be empty"))
  /\ (2000 < Js.length m ->
      validateRequest ChatMessageRequestSchema (BodyObject (Js.String m) v)
      = Failure
          (Js.lit "Message is too long. Please keep it under 2000 characters."))
  /\ (m <> [] -> Js.length m <= 2000 -> Js.trim m = [] ->
      validateRequest ChatMessageRequestSchema (BodyObject (Js.String m) v)
      = Failure (Js.lit "Message cannot be empty after trimming whitespace"))
  /\ (Js.length m <= 2000 -> Js.trim m <> [] ->
      forall s, v = Js.String s -> is_uuid s = false ->
      validateRequest ChatMessageRequestSchema (BodyObject (Js.String m) v)
      = Failure (Js.lit "Invalid session ID format")).
Proof.
  repeat split.
  - intros x NS. unfold validateRequest, ChatMessageRequestSchema.
    destruct x; try (destruct (optional_uuid_field v); reflexivity).
    now destruct (NS s).
  - intros ->. unfold validateRequest, ChatMessageRequestSchema.
    destruct (optional_uuid_field v); reflexivity.
  - intros L. unfold validateRequest, ChatMessageRequestSchema, message_field.
    apply Z.ltb_lt in L as L'. rewrite L'.
    assert ((Js.length m <? 1) = false) as -> by (apply Z.ltb_ge; lia).
    destruct (optional_uuid_field v); reflexivity.
  - intros NE L T. unfold validateRequest, ChatMessageRequestSchema,
      message_field.
    apply length_pos_nonempty in NE.
    assert ((Js.length m <? 1) = false) as -> by (apply Z.ltb_ge; lia).
    assert ((2000 <? Js.length m) = false) as -> by (apply Z.ltb_ge; lia).
    rewrite T. destruct (optional_uuid_field v); reflexivity.
  - intros L T s -> U. apply length_pos_nonempty in T.
    pose proof (trim_length m) as TL.
    unfold validateRequest, ChatMessageRequestSchema, message_field,
      optional_uuid_field.
    assert ((Js.length m <? 1) = false) as -> by (apply Z.ltb_ge; lia).
    assert ((2000 <? Js.length m) = false) as -> by (apply Z.ltb_ge; lia).
    assert ((0 <? Js.length (Js.trim m)) = true) as -> by (apply Z.ltb_lt; lia).
    rewrite U. reflexivity.
Qed.

End SchemaFacts.

(** ** llm.ts: validateInput *)

Lemma validateInput_cases (message : jsstring) :
  (InputCheck.valid (validateInput message) = true
   <-> 1 <= Js.length (Js.trim message) <= 2000)
  /\ (InputCheck.valid (validateInput message) = true
      <-> InputCheck.error (validateInput message) = None)
  /\ InputCheck.error (validateInput message)
     <> Some (Js.lit "Message is too short").
Proof.
  unfold validateInput.
  destruct message as [|c r].
  { repeat split; try discriminate. cbn. lia. }
  destruct (Z.eqb_spec (Js.length (Js.trim (c :: r))) 0) as [E0|N0].
  { cbn [InputCheck.valid InputCheck.error]. repeat split; try discriminate.
    lia. }
  cbv zeta.
  destruct (Z.ltb_spec 2000 (Js.length (Js.trim (c :: r)))) as [L|L].
  { cbn [InputCheck.valid InputCheck.error]. repeat split; try discriminate.
    lia. }
  assert (0 <= Js.length (Js.trim (c :: r))) by (unfold Js.length; lia).
  destruct (Z.ltb_spec (Js.length (Js.trim (c :: r))) 1) as [S|S]; [lia|].
  cbn [InputCheck.valid InputCheck.error]. repeat split; try discriminate.
  all: lia.
Qed.

(** X5. [validateInput] passes a message exactly when it trims to 1 to 2000
    characters; a failed check carries an error and a passed one none;
    the "too short" error is never reported. *)
Theorem validateInput_measures_trimmed (message : jsstring) :
  (InputCheck.valid (validateInput message) = true
   <-> 1 <= Js.length (Js.trim message) <= 2000)
  /\ (InputCheck.valid (validateInput message) = true
      <-> InputCheck.error (validateInput message) = None)
  /\ InputCheck.error (validateInput message)
     <> Some (Js.lit "Message is too short").
Proof. exact (validateInput_cases message). Qed.

Section InputFacts.
Context {P : Platform}.

(** X6. What the zod schema accepts, the deprecated check accepts too, both
    as sent and as normalised. *)
Theorem schema_implies_validateInput (m : jsstring) (v : Js.value)
  (data : ChatMessageRequest) :
  validateRequest ChatMessageRequestSchema (BodyObject (Js.String m) v)
  = Success data ->
  InputCheck.valid (validateInput m) = true
  /\ InputCheck.valid (validateInput (message data)) = true.
Proof.
  intros V. apply ChatMessageRequestSchema_accepts in V
    as (m' & v' & EB & H1 & H2 & HM & _).
  injection EB as <- <-. pose proof (trim_length m) as L.
  split; apply (proj1 (validateInput_cases _)).
  - lia.
  - rewrite HM, trim_idempotent. lia.
Qed.

(** ** Chat.tsx and api.ts against the server *)

(** X7. The form sends nothing exactly when the input trims to nothing or to
    more than 2000 characters; what it sends the server validates, with
    the trimmed input as the message, provided the stored session id is
    of UUID form. *)
Theorem client_request_is_accepted (inputValue : jsstring)
  (stored : option jsstring) :
  ((exists error, handleSendMessage_request inputValue stored = inl error)
   <-> Js.length (Js.trim inputValue) = 0
       \/ 2000 < Js.length (Js.trim inputValue))
  /\ (forall body,
         handleSendMessage_request inputValue stored = inr body ->
         (forall s, stored = Some s -> s = [] \/ is_uuid s = true) ->
         validateRequest ChatMessageRequestSchema body
         = Success {| message := Js.trim inputValue;
                      sessionId := match stored with
                                   | Some (c :: r) => Some (c :: r)
                                   | _ => None
                                   end |}).
Proof.
  unfold handleSendMessage_request, handleSendMessage_checks.
  destruct (Js.trim inputValue) as [|c r] eqn:T.
  { split.
    - split; [intros _; left; reflexivity|eauto].
    - discriminate. }
  assert (NE : 1 <= Js.length (c :: r))
    by (apply length_pos_nonempty; discriminate).
  destruct (Z.ltb_spec 2000 (Js.length (c :: r))) as [L|L].
  { split.
    - split; [intros _; now right|eauto].
    - discriminate. }
  split.
  - split; [intros [e E]; discriminate|intros [Z0|TL]; lia].
  - intros body E U. injection E as <-.
    apply ChatMessageRequestSchema_accepts.
    assert (TT : Js.trim (c :: r) = c :: r)
      by (rewrite <- T; apply trim_idempotent).
    exists (c :: r). eexists. split; [reflexivity|].
    rewrite TT. cbn [message sessionId].
    split; [exact L|]. split; [exact NE|]. split; [reflexivity|].
    destruct stored as [[|d s]|]; [now left| |now left].
    right. exists (d :: s). destruct (U _ eq_refl) as [?|?];
      [discriminate|now repeat split].
Qed.

End InputFacts.

(** ** database.ts: keys, references and round trips *)

Lemma existsb_id_in {A : Type} (f : A -> jsstring) (x : jsstring)
  (l : list A) :
  existsb (fun a => Js.eqb (f a) x) l = true <-> In x (map f l).
Proof.
  rewrite existsb_exists, in_map_iff. split.
  - intros (a & Ha & E). apply eqb_eq in E. eauto.
  - intros (a & E & Ha). exists a. split; [exact Ha|now apply eqb_eq].
Qed.

Lemma existsb_id_absent {A : Type} (f : A -> jsstring) (x : jsstring)
  (l : list A) :
  existsb (fun a => Js.eqb (f a) x) l = false -> ~ In x (map f l).
Proof.
  intros E H. apply existsb_id_in in H. congruence.
Qed.

Lemma NoDup_snoc (x : jsstring) (l : list jsstring) :
  NoDup l -> ~ In x l -> NoDup (l ++ [x]).
Proof.
  intros ND NI. apply NoDup_rev in ND.
  apply (NoDup_cons x) in ND; [|now rewrite <- in_rev].
  apply NoDup_rev in ND. simpl in ND. now rewrite rev_involutive in ND.
Qed.

Lemma find_absent {A : Type} (p : A -> bool) (l : list A) :
  existsb p l = false -> find p l = None.
Proof.
  induction l as [|a l IH]; simpl; [reflexivity|].
  destruct (p a); simpl; [discriminate|exact IH].
Qed.

Lemma find_snoc_absent {A : Type} (p : A -> bool) (l : list A) (a : A) :
  existsb p l = false -> p a = true -> find p (l ++ [a]) = Some a.
Proof.
  induction l as [|b l IH]; simpl; intros E Pa.
  - now rewrite Pa.
  - destruct (p b); simpl in *; [discriminate|now apply IH].
Qed.

Lemma find_present {A : Type} (p : A -> bool) (l : list A) :
  find p l = None -> existsb p l = false.
Proof.
  induction l as [|a l IH]; simpl; [reflexivity|].
  destruct (p a); simpl; [discriminate|exact IH].
Qed.

Section KeyFacts.
Context {P : Platform}.

Lemma run_op_keys (op : StoreOp) (st : Store) :
  primary_keys st -> primary_keys (run_op op st).
Proof.
  intros [KC KM].
  destruct op as [id now|id|id c s t now|c|c n|id]; simpl;
    try (split; assumption).
  - unfold createConversation.
    destruct (existsb _ (conversations st)) eqn:E; simpl;
      [split; assumption|].
    split; [|exact KM]. cbn [conversations].
    rewrite map_app. apply NoDup_snoc; [exact KC|].
    now apply existsb_id_absent.
  - unfold createMessage.
    destruct (existsb _ (messages st)) eqn:E; simpl; [split; assumption|].
    destruct (foreign_keys && _); simpl; [split; assumption|].
    split; [exact KC|]. cbn [messages].
    rewrite map_app. apply NoDup_snoc; [exact KM|].
    now apply existsb_id_absent.
Qed.

(** X8. No sequence of store operations produces two conversation rows, or
    two message rows, with the same id. *)
Theorem primary_keys_preserved (ops : list StoreOp) (st : Store) :
  primary_keys st -> primary_keys (run_ops ops st).
Proof.
  unfold run_ops. revert st.
  induction ops as [|op ops IH]; intros st K; simpl; [exact K|].
  apply IH. now apply run_op_keys.
Qed.

(** X10. [createConversation] throws exactly when [conversationExists] says
    the id is there, and then writes nothing; otherwise the row it
    returns is what [getConversation] finds afterwards; and
    [getConversation] finds nothing exactly when [conversationExists]
    says no. *)
Theorem createConversation_then_lookup (id : jsstring) (now : Z)
  (st : Store) :
  (snd (conversationExists id st) = Returned true ->
   createConversation id now st = (st, Threw UniqueConstraint))
  /\ (snd (conversationExists id st) = Returned false ->
      let row := {| Conversation.id := id; Conversation.createdAt := now |} in
      snd (createConversation id now st) = Returned row
      /\ snd (getConversation id (fst (createConversation id now st)))
         = Returned (Some row)
      /\ snd (conversationExists id (fst (createConversation id now st)))
         = Returned true)
  /\ (snd (getConversation id st) = Returned None
      <-> snd (conversationExists id st) = Returned false).
Proof.
  unfold conversationExists, createConversation, getConversation.
  cbn [snd]. rewrite <- conversation_known.
  destruct (existsb (fun c => Js.eqb (Conversation.id c) id)
              (conversations st)) eqn:E.
  - split; [reflexivity|]. split; [discriminate|].
    split; [|discriminate]. intros F. injection F as F.
    apply find_present in F. congruence.
  - split; [discriminate|]. split.
    + intros _. cbn [fst snd conversations]. split; [reflexivity|]. split.
      * rewrite find_snoc_absent; [reflexivity|exact E|apply eqb_refl].
      * rewrite <- conversation_known. cbn [conversations].
        rewrite existsb_app. cbn. rewrite eqb_refl.
        now rewrite orb_true_r.
    + split; [reflexivity|]. intros _. now rewrite find_absent.
Qed.

End KeyFacts.

(** ** database.ts: what an INSERT does to the ordered reads *)

Lemma table_scan_from_app (tbl ms : list Message.t) (start : nat) :
  combine (seq start (List.length (tbl ++ ms))) (tbl ++ ms)
  = combine (seq start (List.length tbl)) tbl
    ++ combine (seq (start + List.length tbl) (List.length ms)) ms.
Proof.
  revert start. induction tbl as [|m tbl IH]; intros start; simpl.
  - now rewrite Nat.add_0_r.
  - rewrite IH. replace (S start + List.length tbl)%nat
      with (start + S (List.length tbl))%nat by lia.
    reflexivity.
Qed.

Lemma table_scan_app (tbl ms : list Message.t) :
  table_scan (tbl ++ ms)
  = table_scan tbl ++ combine (seq (List.length tbl) (List.length ms)) ms.
Proof. unfold table_scan. now rewrite table_scan_from_app. Qed.

Lemma where_conversationId_other (c : jsstring) (tbl ms : list Message.t) :
  forallb (fun m => negb (Js.eqb (Message.conversationId m) c)) ms = true ->
  where_conversationId c (tbl ++ ms) = where_conversationId c tbl.
Proof.
  intros H. unfold where_conversationId.
  rewrite table_scan_app, filter_app.
  rewrite forallb_forall in H.
  match goal with
  | |- _ ++ ?x = _ => assert (x = []) as ->; [|now rewrite app_nil_r]
  end.
  generalize (List.length tbl).
  induction ms as [|m ms IH]; intros start; simpl; [reflexivity|].
  pose proof (H m (or_introl eq_refl)) as Hm.
  apply negb_true_iff in Hm. rewrite Hm.
  apply IH. intros x Hx. apply H. now right.
Qed.

Lemma where_conversationId_snoc (c : jsstring) (tbl : list Message.t)
  (m : Message.t) :
  Js.eqb (Message.conversationId m) c = true ->
  where_conversationId c (tbl ++ [m])
  = where_conversationId c tbl ++ [(List.length tbl, m)].
Proof.
  intros H. unfold where_conversationId.
  rewrite table_scan_app, filter_app. simpl. now rewrite H.
Qed.

Lemma where_conversationId_in (c : jsstring) (tbl : list Message.t) (r : Row) :
  In r (where_conversationId c tbl) ->
  (rowid r < List.length tbl)%nat
  /\ In (snd r) tbl
  /\ Js.eqb (Message.conversationId (snd r)) c = true.
Proof.
  unfold where_conversationId, table_scan. intros H.
  apply filter_In in H as [H E]. destruct r as [i m].
  split; [|split; [|exact E]].
  - apply in_combine_l in H. apply in_seq in H. simpl. lia.
  - now apply in_combine_r in H.
Qed.

Lemma insert_row_snoc (le : Row -> Row -> bool) (y x : Row) (s : list Row) :
  le y x = true ->
  insert_row le y (s ++ [x]) = insert_row le y s ++ [x].
Proof.
  intros H. induction s as [|z s IH]; simpl.
  - now rewrite H.
  - destruct (le y z); [reflexivity|]. now rewrite IH.
Qed.

Lemma ordered_snoc (le : Row -> Row -> bool) (x : Row) (l : list Row) :
  (forall y, In y l -> le y x = true) ->
  ordered le (l ++ [x]) = ordered le l ++ [x].
Proof.
  unfold ordered. induction l as [|y l IH]; intros H; simpl; [reflexivity|].
  rewrite IH by (intros z Hz; apply H; now right).
  apply insert_row_snoc. apply H. now left.
Qed.

Lemma not_later_spec (c : jsstring) (now : Z) (tbl : list Message.t)
  (m : Message.t) :
  not_later c now tbl = true -> In m tbl ->
  Js.eqb (Message.conversationId m) c = true -> Message.timestamp m <= now.
Proof.
  unfold not_later. rewrite forallb_forall. intros H Hm E.
  specialize (H m Hm). rewrite E in H. simpl in H. now apply Z.leb_le.
Qed.

(** A row written under a clock that has not run backward is read last. *)
Lemma select_asc_snoc (c : jsstring) (tbl : list Message.t) (m : Message.t) :
  Js.eqb (Message.conversationId m) c = true ->
  not_later c (Message.timestamp m) tbl = true ->
  select_asc c (tbl ++ [m]) = select_asc c tbl ++ [m].
Proof.
  intros E NL. unfold select_asc.
  rewrite where_conversationId_snoc by exact E.
  rewrite ordered_snoc.
  - now rewrite map_app.
  - intros y Hy. apply where_conversationId_in in Hy as (Hi & Hm & Hc).
    apply index_le_spec. simpl.
    pose proof (not_later_spec _ _ _ _ NL Hm Hc). unfold rowid in *. lia.
Qed.

Lemma select_asc_other (c : jsstring) (tbl ms : list Message.t) :
  forallb (fun m => negb (Js.eqb (Message.conversationId m) c)) ms = true ->
  select_asc c (tbl ++ ms) = select_asc c tbl.
Proof.
  intros H. unfold select_asc. now rewrite where_conversationId_other.
Qed.

Lemma last_entries_snoc {A : Type} (n : nat) (l : list A) (a : A) :
  last_entries (S n) (l ++ [a]) = last_entries n l ++ [a].
Proof.
  unfold last_entries. rewrite length_app. simpl.
  replace (List.length l + 1 - S n)%nat with (List.length l - n)%nat by lia.
  rewrite skipn_app.
  replace (List.length l - n - List.length l)%nat with 0%nat by lia.
  reflexivity.
Qed.

Section InsertFacts.
Context {P : Platform}.

Lemma createMessage_returns (id c : jsstring) (s : Sender) (t : jsstring)
  (now : Z) (st st' : Store) (row : Message.t) :
  createMessage id c s t now st = (st', Returned row) ->
  row = {| Message.id := id; Message.conversationId := c;
           Message.sender := s; Message.text := t;
           Message.timestamp := now |}
  /\ conversations st' = conversations st
  /\ messages st' = messages st ++ [row].
Proof.
  unfold createMessage.
  destruct (existsb _ (messages st)); [discriminate|].
  destruct (foreign_keys && _); [discriminate|].
  intros E. injection E as <- <-. now repeat split.
Qed.

(** X11. After a successful [createMessage] in conversation [c], the reads
    of every other conversation are as before; if no row of [c] is later
    than the new one, [getMessages c] is the earlier result followed by
    the new row, and a history of [n + 1] is the earlier history of [n]
    followed by the new row. *)
Theorem createMessage_then_reads (id c : jsstring) (s : Sender)
  (t : jsstring) (now : Z) (st st' : Store) (row : Message.t) :
  createMessage id c s t now st = (st', Returned row) ->
  (forall c', Js.eqb c c' = false ->
     snd (getMessages c' st') = snd (getMessages c' st)
     /\ forall n,
         snd (getConversationHistory c' n st')
         = snd (getConversationHistory c' n st))
  /\ (not_later c now (messages st) = true ->
      snd (getMessages c st') = Returned (select_asc c (messages st) ++ [row])
      /\ forall n,
          snd (getConversationHistory c (S n) st')
          = Returned (last_entries n (select_asc c (messages st)) ++ [row])).
Proof.
  intros E. apply createMessage_returns in E as (R & _ & M).
  unfold getMessages, getConversationHistory. cbn [snd]. rewrite M.
  assert (RC : Message.conversationId row = c) by (subst row; reflexivity).
  assert (RT : Message.timestamp row = now) by (subst row; reflexivity).
  split.
  - intros c' NE.
    assert (O : forallb
                  (fun m => negb (Js.eqb (Message.conversationId m) c'))
                  [row] = true)
      by (simpl; now rewrite RC, NE).
    split.
    + now rewrite (select_asc_other c' _ _ O).
    + intros n. rewrite !history_is_tail.
      now rewrite (select_asc_other c' _ _ O).
  - intros NL.
    assert (S1 : select_asc c (messages st ++ [row])
                 = select_asc c (messages st) ++ [row]).
    { apply select_asc_snoc; [rewrite RC; apply eqb_refl|now rewrite RT]. }
    split; [now rewrite S1|].
    intros n. now rewrite history_is_tail, S1, last_entries_snoc.
Qed.

End InsertFacts.

(** X12. [getConversationHistory] returns a suffix of [getMessages], of
    length the smaller of the limit and the total: all of it when the
    limit reaches the total, nothing when the limit is 0. *)
Theorem history_limits (c : jsstring) (n : nat) (st : Store) :
  exists full history older,
    snd (getMessages c st) = Returned full
    /\ snd (getConversationHistory c n st) = Returned history
    /\ full = older ++ history
    /\ List.length history = Nat.min n (List.length full)
    /\ ((List.length full <= n)%nat -> history = full)
    /\ (n = 0%nat -> history = []).
Proof.
  exists (select_asc c (messages st)),
    (last_entries n (select_asc c (messages st))),
    (firstn (List.length (select_asc c (messages st)) - n)
       (select_asc c (messages st))).
  unfold getMessages, getConversationHistory. cbn [snd].
  rewrite history_is_tail. unfold last_entries.
  repeat split.
  - symmetry. apply firstn_skipn.
  - rewrite length_skipn. lia.
  - intros L.
    replace (List.length (select_asc c (messages st)) - n)%nat with 0%nat
      by lia.
    reflexivity.
  - intros ->. rewrite Nat.sub_0_r. apply skipn_all.
Qed.

(** ** llm.ts: the prompt and the reply *)

Lemma slice_last_short {A : Type} (n : nat) (l : list A) :
  (List.length l <= n)%nat -> Js.slice_last n l = l.
Proof.
  intros H. unfold Js.slice_last.
  replace (List.length l - n)%nat with 0%nat by lia. reflexivity.
Qed.

Lemma slice_last_length {A : Type} (n : nat) (l : list A) :
  (List.length (Js.slice_last n l) <= n)%nat.
Proof. unfold Js.slice_last. rewrite length_skipn. lia. Qed.

Lemma startsWith_app (s b : jsstring) : Js.startsWith (s ++ b) s = true.
Proof.
  induction s as [|c s IH]; simpl; [now destruct b|].
  now rewrite N.eqb_refl, IH.
Qed.

Lemma includes_step (l sub : jsstring) :
  Js.includes l sub
  = Js.startsWith l sub
    || match l with
       | [] => false
       | _ :: r => Js.includes r sub
       end.
Proof. destruct l; reflexivity. Qed.

Lemma includes_middle (a s b : jsstring) : Js.includes (a ++ s ++ b) s = true.
Proof.
  induction a as [|x a IH]; cbn [app]; rewrite includes_step.
  - now rewrite startsWith_app.
  - rewrite IH. apply orb_true_r.
Qed.

Lemma rendered_lines (l : list Message.t) (acc : jsstring) :
  fold_left
    (fun context msg =>
       let role :=
         match Message.sender msg with
         | user => Js.lit "Customer"
         | ai => Js.lit "Agent"
         end in
       context ++ role ++ Js.lit ": " ++ Message.text msg ++ newline)
    l acc
  = acc ++ flat_map rendered_line l.
Proof.
  revert acc. induction l as [|m l IH]; intros acc; cbn [fold_left flat_map].
  - now rewrite app_nil_r.
  - rewrite IH. cbv zeta. rewrite <- (app_assoc acc). reflexivity.
Qed.

Section PromptFacts.
Context {P : Platform}.

(** X13. The prompt depends on the history through its last ten messages
    only. *)
Theorem prompt_uses_last_ten (history : list Message.t)
  (currentMessage : jsstring) :
  buildConversationContext history currentMessage
  = buildConversationContext (Js.slice_last 10 history) currentMessage.
Proof.
  unfold buildConversationContext.
  now rewrite (slice_last_short 10 (Js.slice_last 10 history))
    by apply slice_last_length.
Qed.

Lemma prompt_layout (history : list Message.t) (currentMessage : jsstring) :
  buildConversationContext history currentMessage
  = (FAQ_KNOWLEDGE ++ newline ++ newline)
    ++ match Js.slice_last 10 history with
       | [] => []
       | recent =>
           Js.lit "CONVERSATION HISTORY:" ++ newline
           ++ flat_map rendered_line recent ++ newline
       end
    ++ Js.lit "Customer: " ++ currentMessage ++ newline ++ newline
    ++ Js.lit "Agent:".
Proof.
  unfold buildConversationContext. cbv zeta.
  destruct (Js.slice_last 10 history) as [|m recent] eqn:E.
  - reflexivity.
  - assert ((0 <? Z.of_nat (List.length (m :: recent))) = true) as ->
      by (apply Z.ltb_lt; simpl; lia).
    rewrite rendered_lines. now rewrite <- !app_assoc.
Qed.

(** X14. The prompt opens with the knowledge preamble and closes with the
    new message as a Customer line and the Agent cue; with no history
    nothing stands between them; each of the last ten messages of the
    history is rendered on a line with its role. *)
Theorem prompt_renders_history (history : list Message.t)
  (currentMessage : jsstring) :
  (exists middle,
      buildConversationContext history currentMessage
      = FAQ_KNOWLEDGE ++ newline ++ newline ++ middle
        ++ Js.lit "Customer: " ++ currentMessage ++ newline ++ newline
        ++ Js.lit "Agent:"
      /\ (history = [] -> middle = []))
  /\ (forall msg,
         In msg (Js.slice_last 10 history) ->
         Js.includes (buildConversationContext history currentMessage)
           (rendered_line msg) = true).
Proof.
  rewrite prompt_layout. split.
  - exists (match Js.slice_last 10 history with
            | [] => []
            | recent =>
                Js.lit "CONVERSATION HISTORY:" ++ newline
                ++ flat_map rendered_line recent ++ newline
            end).
    split; [now rewrite <- !app_assoc|]. now intros ->.
  - intros msg Hm.
    destruct (Js.slice_last 10 history) as [|m recent] eqn:E; [destruct Hm|].
    apply in_split in Hm as (l1 & l2 & ->).
    rewrite flat_map_app. simpl flat_map.
    rewrite <- !app_assoc.
    rewrite !(app_assoc _ _ (rendered_line msg ++ _)).
    apply includes_middle.
Qed.

(** X15. The history the chat handler fetches, at most ten rows, is rendered
    in full: no row of it is cut from the prompt. *)
Theorem fetched_history_is_rendered (c : jsstring) (n : nat) (st : Store)
  (history : list Message.t) (currentMessage : jsstring) :
  (n <= 10)%nat ->
  snd (getConversationHistory c n st) = Returned history ->
  Js.slice_last 10 history = history
  /\ forall msg,
      In msg history ->
      Js.includes (buildConversationContext history currentMessage)
        (rendered_line msg) = true.
Proof.
  intros N E. unfold getConversationHistory in E. cbn [snd] in E.
  injection E as <-.
  assert (S : Js.slice_last 10 (rev (select_desc_limit c n (messages st)))
              = rev (select_desc_limit c n (messages st))).
  { apply slice_last_short. rewrite length_rev. unfold select_desc_limit.
    pose proof (firstn_le_length n
                  (map snd (ordered index_ge
                              (where_conversationId c (messages st))))).
    lia. }
  split; [exact S|].
  intros msg Hm. rewrite prompt_layout, S.
  destruct (rev (select_desc_limit c n (messages st))) as [|m recent];
    [destruct Hm|].
  apply in_split in Hm as (l1 & l2 & ->).
  rewrite flat_map_app. simpl flat_map.
  rewrite <- !app_assoc.
  rewrite !(app_assoc _ _ (rendered_line msg ++ _)).
  apply includes_middle.
Qed.

(** X16. [generateReply] resolves exactly when the provider resolves with a
    text that does not trim to nothing, and then to the trimmed text; a
    missing, empty or blank text is rejected with the message of an
    unknown error. *)
Theorem generateReply_resolves_iff (svc : LLMService)
  (history : list Message.t) (userMessage : jsstring) :
  (forall reply,
      generateReply svc history userMessage = inl reply
      <-> exists text,
            generateContent svc (buildConversationContext history userMessage)
            = Resolved (Some text)
            /\ Js.trim text <> [] /\ reply = Js.trim text)
  /\ (forall text,
         generateContent svc (buildConversationContext history userMessage)
         = Resolved text ->
         (forall t, text = Some t -> Js.trim t = []) ->
         generateReply svc history userMessage
         = inr (kind_message Unknown)).
Proof.
  unfold generateReply.
  destruct (generateContent svc _) as [[[|c r]|]|raw].
  - split.
    + intros reply. split; [discriminate|].
      intros (t & E & NE & _). injection E as <-. now destruct NE.
    + reflexivity.
  - destruct (Z.eqb_spec (Js.length (Js.trim (c :: r))) 0) as [Z0|NZ].
    + apply length_zero_nil in Z0. split.
      * intros reply. split; [discriminate|].
        intros (t & E & NE & _). injection E as <-. contradiction.
      * reflexivity.
    + split.
      * intros reply. split.
        -- intros E. injection E as <-. exists (c :: r).
           repeat split. intros H. apply NZ. now apply length_zero_nil.
        -- intros (t & E & _ & ->). now injection E as <-.
      * intros text E H. injection E as <-.
        specialize (H _ eq_refl). apply length_zero_nil in H. contradiction.
  - split.
    + intros reply. split; [discriminate|]. intros (t & E & _). discriminate.
    + reflexivity.
  - split.
    + intros reply. split; [discriminate|]. intros (t & E & _). discriminate.
    + discriminate.
Qed.

(** X17. The handler's own fallback text stands for no generator failure:
    the reply equals it only if the provider's trimmed answer is that
    very text. *)
Theorem catch_fallback_is_unused (svc : LLMService)
  (history : list Message.t) (message : jsstring) :
  reply_or_caught svc history message
  = Js.lit "Sorry, I encountered an error. Please try again." ->
  generateReply svc history message
  = inl (Js.lit "Sorry, I encountered an error. Please try again.").
Proof.
  pose proof (reply_or_caught_cases svc history message) as C.
  destruct (generateReply svc history message) as [reply|error].
  - intros E. now rewrite <- E, C.
  - destruct C as [-> S]. intros E. rewrite E in S.
    unfold user_safe_messages in S. simpl in S.
    destruct S as [S|[S|[S|[S|[]]]]]; vm_compute in S; discriminate.
Qed.

Lemma reply_or_caught_nonempty (svc : LLMService)
  (history : list Message.t) (message : jsstring) :
  reply_or_caught svc history message <> [].
Proof.
  pose proof (reply_or_caught_cases svc history message) as C.
  destruct (generateReply svc history message) as [reply|error] eqn:G.
  - rewrite C. now apply generateReply_resolves in G as (_ & NE & _).
  - destruct C as [-> S]. intros E. rewrite E in S.
    unfold user_safe_messages in S. simpl in S.
    destruct S as [S|[S|[S|[S|[]]]]]; discriminate.
Qed.

End PromptFacts.

(** ** index.ts: what a request leaves behind *)

Section ServerFacts.
Context {P : Platform}.

(** The rows one chat turn adds, by outcome. *)
Lemma chat_turn_shape (env : Env) (body : Body) (st : Store) :
  (exists error,
      validateRequest ChatMessageRequestSchema body = Failure error
      /\ post_chat_message env body st
         = (st, ErrorResponse 400 error (now_error env)))
  \/ (exists data cs ms,
         validateRequest ChatMessageRequestSchema body = Success data
         /\ conversations (fst (post_chat_message env body st))
            = conversations st ++ cs
         /\ messages (fst (post_chat_message env body st))
            = messages st ++ ms
         /\ (0 < count_conversations
                   (Js.or (sessionId data) (freshSessionId env)) st
             /\ cs = []
             \/ count_conversations
                  (Js.or (sessionId data) (freshSessionId env)) st = 0
                /\ cs = [{| Conversation.id :=
                              Js.or (sessionId data) (freshSessionId env);
                            Conversation.createdAt := now_conversation env |}])
         /\ (ms = []
             /\ status (snd (post_chat_message env body st)) = 500
             \/ existsb (fun m => Js.eqb (Message.id m) (userMessageId env))
                  (messages st) = false
                /\ (ms = [{| Message.id := userMessageId env;
                             Message.conversationId :=
                               Js.or (sessionId data) (freshSessionId env);
                             Message.sender := user;
                             Message.text := message data;
                             Message.timestamp := now_user env |}]
                    /\ status (snd (post_chat_message env body st)) = 500
                    \/ exists reply,
                        ms = [{| Message.id := userMessageId env;
                                 Message.conversationId :=
                                   Js.or (sessionId data) (freshSessionId env);
                                 Message.sender := user;
                                 Message.text := message data;
                                 Message.timestamp := now_user env |};
                              {| Message.id := aiMessageId env;
                                 Message.conversationId :=
                                   Js.or (sessionId data) (freshSessionId env);
                                 Message.sender := ai;
                                 Message.text := reply;
                                 Message.timestamp := now_ai env |}]
                        /\ snd (post_chat_message env body st)
                           = ChatMessageResponse reply
                               (Js.or (sessionId data) (freshSessionId env))
                        /\ reply <> []
                        /\ existsb
                             (fun m => Js.eqb (Message.id m) (aiMessageId env))
                             (messages st) = false
                        /\ Js.eqb (userMessageId env) (aiMessageId env)
                           = false))).
Proof.
  destruct (validateRequest_fails_or_succeeds ChatMessageRequestSchema body)
    as [[data V]|[error V]].
  2:{ left. exists error. split; [exact V|now apply chat_turn_rejected]. }
  right. pose proof (chat_turn_value env body data st V) as T.
  cbv beta zeta in T.
  set (sid := Js.or (sessionId data) (freshSessionId env)) in *.
  exists data,
    (if 0 <? count_conversations sid st then []
     else [{| Conversation.id := sid;
              Conversation.createdAt := now_conversation env |}]).
  assert (CS : forall x,
             conversations
               (if 0 <? count_conversations sid st then st
                else {| conversations :=
                          conversations st
                          ++ [{| Conversation.id := sid;
                                 Conversation.createdAt :=
                                   now_conversation env |}];
                        messages := x |})
             = conversations st
               ++ (if 0 <? count_conversations sid st then []
                   else [{| Conversation.id := sid;
                            Conversation.createdAt :=
                              now_conversation env |}])).
  { intros x. destruct (0 <? count_conversations sid st);
      [now rewrite app_nil_r|reflexivity]. }
  assert (MS : messages
                 (if 0 <? count_conversations sid st then st
                  else {| conversations :=
                            conversations st
                            ++ [{| Conversation.id := sid;
                                   Conversation.createdAt :=
                                     now_conversation env |}];
                          messages := messages st |})
               = messages st)
    by (destruct (0 <? count_conversations sid st); reflexivity).
  assert (CC : 0 < count_conversations sid st
               /\ (if 0 <? count_conversations sid st then []
                   else [{| Conversation.id := sid;
                            Conversation.createdAt :=
                              now_conversation env |}]) = []
               \/ count_conversations sid st = 0
                  /\ (if 0 <? count_conversations sid st then []
                      else [{| Conversation.id := sid;
                               Conversation.createdAt :=
                                 now_conversation env |}])
                     = [{| Conversation.id := sid;
                           Conversation.createdAt :=
                             now_conversation env |}]).
  { destruct (Z.ltb_spec 0 (count_conversations sid st)); [now left|].
    right. split; [|reflexivity]. unfold count_conversations in *. lia. }
  destruct (existsb (fun m => Js.eqb (Message.id m) (userMessageId env))
              (messages st)) eqn:DU.
  { exists []. rewrite T. cbn [fst snd status].
    rewrite CS, MS, app_nil_r. repeat split; try assumption. now left. }
  rewrite existsb_app in T. cbn [existsb Message.id] in T.
  rewrite orb_false_r in T.
  destruct (existsb (fun m => Js.eqb (Message.id m) (aiMessageId env))
              (messages st)) eqn:DA;
    [|destruct (Js.eqb (userMessageId env) (aiMessageId env)) eqn:UA];
    cbn [orb] in T; rewrite T; cbn [fst snd status conversations messages];
    rewrite CS.
  - eexists. repeat split; try assumption. right. split; [reflexivity|].
    left. now split.
  - eexists. repeat split; try assumption. right. split; [reflexivity|].
    left. now split.
  - eexists. split; [exact V|]. split; [reflexivity|].
    split; [now rewrite <- app_assoc|]. split; [exact CC|].
    right. split; [reflexivity|]. right. eexists.
    split; [reflexivity|]. split; [reflexivity|]. split; [|now split].
    destruct (llmService env); [apply reply_or_caught_nonempty|discriminate].
Qed.

End ServerFacts.

Lemma replies_follow_snoc_user (prev : option Message.t)
  (rows : list Message.t) (u : Message.t) :
  Message.sender u = user ->
  replies_follow prev rows = true ->
  replies_follow prev (rows ++ [u]) = true.
Proof.
  intros U. revert prev.
  induction rows as [|m rows IH]; intros prev H; simpl in *.
  - now rewrite U.
  - apply andb_true_iff in H as [H1 H2]. rewrite H1. simpl. now apply IH.
Qed.

Lemma replies_follow_snoc_pair (prev : option Message.t)
  (rows : list Message.t) (u a : Message.t) :
  Message.sender u = user ->
  Message.conversationId u = Message.conversationId a ->
  replies_follow prev rows = true ->
  replies_follow prev (rows ++ [u; a]) = true.
Proof.
  intros U C. revert prev.
  induction rows as [|m rows IH]; intros prev H; simpl in *.
  - rewrite U, C, eqb_refl. now destruct (Message.sender a).
  - apply andb_true_iff in H as [H1 H2]. rewrite H1. simpl. now apply IH.
Qed.

Lemma not_later_mono (c : jsstring) (t1 t2 : Z) (tbl : list Message.t) :
  t1 <= t2 -> not_later c t1 tbl = true -> not_later c t2 tbl = true.
Proof.
  unfold not_later. rewrite !forallb_forall. intros L H m Hm.
  specialize (H m Hm). apply orb_true_iff in H as [H|H].
  - now rewrite H.
  - apply Z.leb_le in H. apply orb_true_iff. right. apply Z.leb_le. lia.
Qed.

Section RequestFacts.
Context {P : Platform}.

Lemma history_route_store (env : Env) (param : jsstring) (st : Store) :
  fst (get_chat_history env param st) = st.
Proof.
  unfold get_chat_history, asyncHandler, chat_history_body, validateRequest,
    SessionIdParamSchema.
  destruct (is_uuid param); cbn [param_sessionId]; [|reflexivity].
  unfold bind, conversationExists, getMessages, ret.
  destruct (0 <? count_conversations param st); reflexivity.
Qed.

(** X18. The history route writes nothing and answers 200, 400 or 404,
    whatever the parameter and the store. *)
Theorem history_route_is_read_only (env : Env) (param : jsstring)
  (st : Store) :
  fst (get_chat_history env param st) = st
  /\ (status (snd (get_chat_history env param st)) = 200
      \/ status (snd (get_chat_history env param st)) = 400
      \/ status (snd (get_chat_history env param st)) = 404).
Proof.
  unfold get_chat_history, asyncHandler, chat_history_body, validateRequest,
    SessionIdParamSchema.
  destruct (is_uuid param); cbn [param_sessionId].
  - unfold bind, conversationExists, getMessages, ret.
    destruct (0 <? count_conversations param st); cbn; auto.
  - cbn. auto.
Qed.

(** X19. A chat turn only appends: at most one conversation row, and two
    message rows exactly when it answers 200; a 400 leaves the store as
    it was; a 500 leaves at most the [user] row of the turn. *)
Theorem turn_rows_by_status (env : Env) (body : Body) (st : Store) :
  exists cs ms,
    conversations (fst (post_chat_message env body st))
    = conversations st ++ cs
    /\ messages (fst (post_chat_message env body st)) = messages st ++ ms
    /\ (List.length cs <= 1)%nat
    /\ (status (snd (post_chat_message env body st)) = 400
        /\ fst (post_chat_message env body st) = st /\ cs = [] /\ ms = []
        \/ status (snd (post_chat_message env body st)) = 500
           /\ (List.length ms <= 1)%nat
           /\ Forall (fun m => Message.sender m = user) ms
        \/ status (snd (post_chat_message env body st)) = 200
           /\ List.length ms = 2%nat).
Proof.
  destruct (chat_turn_shape env body st)
    as [(error & _ & E)|(data & cs & ms & _ & EC & EM & HC & HM)].
  - exists [], []. rewrite E, !app_nil_r. cbn. repeat split; try lia.
    left. now repeat split.
  - exists cs, ms. split; [exact EC|]. split; [exact EM|]. split.
    + destruct HC as [[_ ->]|[_ ->]]; simpl; lia.
    + right.
      destruct HM as [[-> S]|[_ [[-> S]|(reply & -> & S & _)]]].
      * left. repeat split; [exact S|simpl; lia|constructor].
      * left. repeat split; [exact S|simpl; lia|].
        constructor; [reflexivity|constructor].
      * right. rewrite S. now split.
Qed.

Lemma resolved_session (env : Env) (mv v : Js.value)
  (data : ChatMessageRequest) (c : jsstring) :
  validateRequest ChatMessageRequestSchema (BodyObject mv v) = Success data ->
  v <> Js.String c -> c <> freshSessionId env ->
  Js.eqb (Js.or (sessionId data) (freshSessionId env)) c = false.
Proof.
  intros V NV NF.
  apply ChatMessageRequestSchema_accepts in V as (m & v' & EB & _ & _ & _ & HS).
  injection EB as _ <-.
  destruct (Js.eqb _ c) eqn:E; [|reflexivity]. apply eqb_eq in E.
  destruct HS as [[_ S]|(s & -> & U & S)]; rewrite S in E.
  - simpl in E. congruence.
  - rewrite (uuid_truthy _ _ U) in E. congruence.
Qed.

(** X20. A chat turn changes the reads of no conversation but its own: for
    any id that is neither the supplied session id nor the one freshly
    generated, [getMessages] and [getConversationHistory] return what
    they returned before. *)
Theorem turn_leaves_other_sessions (env : Env) (mv v : Js.value)
  (st : Store) (c : jsstring) :
  v <> Js.String c -> c <> freshSessionId env ->
  snd (getMessages c (fst (post_chat_message env (BodyObject mv v) st)))
  = snd (getMessages c st)
  /\ forall n,
      snd (getConversationHistory c n
             (fst (post_chat_message env (BodyObject mv v) st)))
      = snd (getConversationHistory c n st).
Proof.
  intros NV NF. unfold getMessages, getConversationHistory. cbn [snd].
  assert (S : select_asc c
                (messages (fst (post_chat_message env (BodyObject mv v) st)))
              = select_asc c (messages st)).
  { destruct (chat_turn_shape env (BodyObject mv v) st)
      as [(error & _ & E)|(data & cs & ms & V & _ & EM & _ & HM)].
    - now rewrite E.
    - rewrite EM. apply select_asc_other.
      pose proof (resolved_session env mv v data c V NV NF) as Q.
      destruct HM as [[-> _]|[_ [[-> _]|(reply & -> & _)]]];
        cbn; now rewrite ?Q. }
  split; [now rewrite S|].
  intros n. now rewrite !history_is_tail, S.
Qed.

(** X21. What a turn answered 200 wrote is what the history route reads
    back: when the clock has not run backward, the history of the
    session is the one before the turn followed by the [user] row and
    the [ai] row of the turn. *)
Theorem turn_then_history (env env' : Env) (body : Body) (st st' : Store)
  (reply sid : jsstring) :
  post_chat_message env body st = (st', ChatMessageResponse reply sid) ->
  is_uuid sid = true ->
  not_later sid (now_user env) (messages st) = true ->
  (now_user env <=? now_ai env) = true ->
  exists text,
    get_chat_history env' sid st'
    = (st',
       HistoryResponse
         (select_asc sid (messages st)
          ++ [{| Message.id := userMessageId env;
                 Message.conversationId := sid;
                 Message.sender := user;
                 Message.text := text;
                 Message.timestamp := now_user env |};
              {| Message.id := aiMessageId env;
                 Message.conversationId := sid;
                 Message.sender := ai;
                 Message.text := reply;
                 Message.timestamp := now_ai env |}])
         sid).
Proof.
  intros E U NL TT. apply Z.leb_le in TT.
  destruct (chat_turn_shape env body st)
    as [(error & _ & F)|(data & cs & ms & V & EC & EM & HC & HM)];
    rewrite E in *; [discriminate|]. cbn [fst snd status] in *.
  destruct HM as [[_ S]|[_ [[_ S]|(reply' & -> & S & _)]]];
    try discriminate.
  injection S as <- ->. exists (message data).
  set (sid := Js.or (sessionId data) (freshSessionId env)) in *.
  unfold get_chat_history, asyncHandler, chat_history_body, validateRequest,
    SessionIdParamSchema.
  rewrite U. cbn [param_sessionId].
  unfold bind, conversationExists, getMessages, ret.
  assert (K : (0 <? count_conversations sid st') = true).
  { rewrite <- conversation_known, EC, existsb_app.
    destruct HC as [[K ->]|[_ ->]].
    - apply Z.ltb_lt in K. rewrite <- conversation_known in K. now rewrite K.
    - cbn. rewrite eqb_refl. now rewrite !orb_true_r. }
  rewrite K. cbn [negb]. rewrite EM.
  change [?u; ?a] with ([u] ++ [a]). rewrite app_assoc.
  rewrite select_asc_snoc, select_asc_snoc, <- app_assoc; try reflexivity.
  - apply eqb_refl.
  - exact NL.
  - apply eqb_refl.
  - cbn [Message.timestamp]. unfold not_later. rewrite forallb_app.
    apply andb_true_iff. split.
    + now apply (not_later_mono sid (now_user env)).
    + cbn [forallb Message.conversationId Message.timestamp].
      rewrite eqb_refl, andb_true_r. cbn [negb orb]. now apply Z.leb_le.
Qed.

End RequestFacts.

(** ** index.ts: invariants over any sequence of requests *)

Section ServerInvariants.
Context {P : Platform}.

Lemma serve_integrity (req : Request) (st : Store) :
  primary_keys st /\ references_resolve st ->
  primary_keys (fst (serve req st))
  /\ references_resolve (fst (serve req st)).
Proof.
  intros [[KC KM] R]. destruct req as [env body|env param]; cbn [serve].
  2:{ rewrite (history_route_store env param st).
      now repeat split. }
  destruct (chat_turn_shape env body st)
    as [(error & _ & E)|(data & cs & ms & V & EC & EM & HC & HM)].
  { rewrite E. now repeat split. }
  set (sid := Js.or (sessionId data) (freshSessionId env)) in *.
  assert (KS : existsb (fun c => Js.eqb (Conversation.id c) sid)
                 (conversations st ++ cs) = true).
  { rewrite existsb_app. destruct HC as [[K ->]|[_ ->]].
    - apply Z.ltb_lt in K. rewrite <- conversation_known in K. now rewrite K.
    - cbn. rewrite eqb_refl. now rewrite !orb_true_r. }
  assert (RS : forall m, In m (messages st) ->
               existsb
                 (fun c => Js.eqb (Conversation.id c) (Message.conversationId m))
                 (conversations st ++ cs) = true).
  { intros m Hm. rewrite existsb_app, (R m Hm). reflexivity. }
  subst sid. repeat split.
  - rewrite EC. destruct HC as [[_ ->]|[Z0 ->]]; [now rewrite app_nil_r|].
    rewrite map_app. apply NoDup_snoc; [exact KC|].
    apply existsb_id_absent. rewrite conversation_known.
    cbn [Conversation.id]. rewrite Z0. reflexivity.
  - rewrite EM.
    destruct HM as [[-> _]|[DU [[-> _]|(reply & -> & _ & _ & DA & UA)]]].
    + now rewrite app_nil_r.
    + rewrite map_app. apply NoDup_snoc; [exact KM|].
      now apply existsb_id_absent.
    + change [?u; ?a] with ([u] ++ [a]). rewrite app_assoc, !map_app.
      apply NoDup_snoc.
      * apply NoDup_snoc; [exact KM|]. now apply existsb_id_absent.
      * cbn [map Message.id]. intros H. apply in_app_or in H as [H|[H|[]]].
        -- apply (existsb_id_absent _ _ _ DA H).
        -- apply eqb_eq in H. congruence.
  - intros m Hm. rewrite EC. rewrite EM in Hm.
    apply in_app_or in Hm as [Hm|Hm]; [now apply RS|].
    destruct HM as [[-> _]|[_ [[-> _]|(reply & -> & _)]]]; simpl in Hm.
    + destruct Hm.
    + destruct Hm as [<-|[]]. exact KS.
    + destruct Hm as [<-|[<-|[]]]; exact KS.
Qed.

(** X22. Whatever requests the two routes serve, in whatever order and with
    whatever ids and clock readings, no two rows share a primary key and
    every message row points to a conversation row, also when the engine
    does not enforce foreign keys. *)
Theorem server_keeps_integrity (reqs : list Request) (st : Store) :
  primary_keys st /\ references_resolve st ->
  primary_keys (serve_all reqs st) /\ references_resolve (serve_all reqs st).
Proof.
  unfold serve_all. revert st.
  induction reqs as [|req reqs IH]; intros st H; simpl; [exact H|].
  apply IH. now apply serve_integrity.
Qed.

Lemma serve_texts (req : Request) (st : Store) :
  Forall text_admitted (messages st) ->
  Forall text_admitted (messages (fst (serve req st))).
Proof.
  intros F. destruct req as [env body|env param]; cbn [serve].
  2:{ now rewrite (history_route_store env param st). }
  destruct (chat_turn_shape env body st)
    as [(error & _ & E)|(data & cs & ms & V & _ & EM & _ & HM)].
  { now rewrite E. }
  rewrite EM. apply Forall_app. split; [exact F|].
  assert (TU : forall id c t,
             text_admitted
               {| Message.id := id; Message.conversationId := c;
                  Message.sender := user; Message.text := message data;
                  Message.timestamp := t |}).
  { intros id c t.
    apply ChatMessageRequestSchema_accepts in V
      as (m & v & _ & H1 & H2 & HM' & _).
    pose proof (trim_length m) as L.
    unfold text_admitted. cbn [Message.text Message.sender]. rewrite HM'.
    split; [now apply length_pos_nonempty|]. intros _.
    split; [apply trim_idempotent|lia]. }
  destruct HM as [[-> _]|[_ [[-> _]|(reply & -> & _ & NE & _)]]].
  - constructor.
  - constructor; [apply TU|constructor].
  - constructor; [apply TU|]. constructor; [|constructor].
    split; [exact NE|]. discriminate.
Qed.

(** X23. Every text the server stores is non-empty, and the text of every
    [user] row is a trimmed string of at most 2000 characters. *)
Theorem server_admits_texts (reqs : list Request) (st : Store) :
  Forall text_admitted (messages st) ->
  Forall text_admitted (messages (serve_all reqs st)).
Proof.
  unfold serve_all. revert st.
  induction reqs as [|req reqs IH]; intros st H; simpl; [exact H|].
  apply IH. now apply serve_texts.
Qed.

Lemma serve_pairs (req : Request) (st : Store) :
  replies_follow None (messages st) = true ->
  replies_follow None (messages (fst (serve req st))) = true.
Proof.
  intros F. destruct req as [env body|env param]; cbn [serve].
  2:{ now rewrite (history_route_store env param st). }
  destruct (chat_turn_shape env body st)
    as [(error & _ & E)|(data & cs & ms & V & _ & EM & _ & HM)].
  { now rewrite E. }
  rewrite EM.
  destruct HM as [[-> _]|[_ [[-> _]|(reply & -> & _)]]].
  - now rewrite app_nil_r.
  - now apply replies_follow_snoc_user.
  - now apply replies_follow_snoc_pair.
Qed.

(** X24. In the messages table every [ai] row comes right after a [user] row
    of the same conversation, whatever requests were served. *)
Theorem server_pairs_replies (reqs : list Request) (st : Store) :
  replies_follow None (messages st) = true ->
  replies_follow None (messages (serve_all reqs st)) = true.
Proof.
  unfold serve_all. revert st.
  induction reqs as [|req reqs IH]; intros st H; simpl; [exact H|].
  apply IH. now apply serve_pairs.
Qed.

(** X25. [/health] reports the LLM enabled exactly when a non-empty API key
    is configured, and the service then calls the SDK under that key;
    when it reports it disabled, the reply of every turn answered 200 is
    the unavailability text. *)
Theorem llm_enabled_iff_key (GoogleGenAI : jsstring -> jsstring -> Completion)
  (key : option jsstring) (now : Z) :
  (llmEnabled (get_health (initial_llmService GoogleGenAI key) now) = true
   <-> exists c r,
         key = Some (c :: r)
         /\ initial_llmService GoogleGenAI key
            = Some {| generateContent := GoogleGenAI (c :: r) |})
  /\ (llmEnabled (get_health (initial_llmService GoogleGenAI key) now) = false ->
      forall env body st st' reply sid,
        llmService env = initial_llmService GoogleGenAI key ->
        post_chat_message env body st = (st', ChatMessageResponse reply sid) ->
        reply = Js.lit "Sorry, the AI service is currently unavailable.").
Proof.
  split.
  - destruct key as [[|c r]|]; cbn; split; try discriminate;
      try (intros (c' & r' & E & _); discriminate).
    + intros _. now exists c, r.
    + reflexivity.
  - intros D env body st st' reply sid L E.
    assert (N : llmService env = None).
    { rewrite L. destruct (initial_llmService GoogleGenAI key);
        [discriminate|reflexivity]. }
    destruct (validateRequest_fails_or_succeeds ChatMessageRequestSchema body)
      as [[data V]|[error V]].
    2:{ rewrite (chat_turn_rejected env body st error V) in E. discriminate. }
    pose proof (chat_turn_value env body data st V) as T.
    cbv beta zeta in T. rewrite E, N in T.
    destruct (existsb _ (messages st)); [discriminate|].
    destruct (existsb _ (messages st ++ _)); [discriminate|].
    now injection T.
Qed.

End ServerInvariants.

(** ** The further properties at work on the sample platform *)


Lemma validated_request_is_normal_witness :
  Js.trim (message hello_data) = message hello_data
  /\ 1 <= Js.length (message hello_data) <= 2000.
Proof.
  destruct (@validated_request_is_normal sample_platform hello_body
              hello_data eq_refl) as (T & B & _).
  split; assumption.
Defined.

Lemma validation_is_idempotent_witness :
  @validateRequest Body ChatMessageRequest
    (@ChatMessageRequestSchema sample_platform)
    (sendMessage_body (message hello_data) (sessionId hello_data))
  = Success hello_data.
Proof.
  exact (@validation_is_idempotent sample_platform hello_body hello_data
           eq_refl).
Defined.

Lemma first_violated_rule_witness :
  @validateRequest Body ChatMessageRequest
    (@ChatMessageRequestSchema sample_platform)
    (BodyObject (Js.String padded_message) (Js.String (Js.lit "not-a-uuid")))
  = Failure
      (Js.lit "Message is too long. Please keep it under 2000 characters.").
Proof.
  apply (proj1 (proj2 (proj2 (@first_violated_rule sample_platform
                                padded_message
                                (Js.String (Js.lit "not-a-uuid")))))).
  vm_compute. reflexivity.
Defined.

Lemma validateInput_measures_trimmed_witness :
  InputCheck.valid (validateInput padded_message) = true.
Proof.
  apply (proj2 (proj1 (validateInput_measures_trimmed padded_message))).
  vm_compute. split; discriminate.
Defined.

Lemma schema_implies_validateInput_witness :
  InputCheck.valid (validateInput (Js.lit " hello ")) = true
  /\ InputCheck.valid (validateInput (message hello_data)) = true.
Proof.
  exact (@schema_implies_validateInput sample_platform (Js.lit " hello ")
           (Js.String sample_session) hello_data eq_refl).
Defined.

Lemma client_request_is_accepted_witness :
  @validateRequest Body ChatMessageRequest
    (@ChatMessageRequestSchema sample_platform)
    (sendMessage_body (Js.trim padded_message) (Some sample_session))
  = Success {| message := Js.trim padded_message;
               sessionId := Some sample_session |}.
Proof.
  apply (proj2 (@client_request_is_accepted sample_platform padded_message
                  (Some sample_session))).
  - vm_compute. reflexivity.
  - intros s E. injection E as <-. right. reflexivity.
Defined.

Lemma primary_keys_preserved_witness :
  primary_keys
    (@run_ops sample_platform
       [OpCreateConversation sample_session 1;
        OpCreateConversation sample_session 2;
        OpCreateMessage (Js.lit "m1") sample_session user (Js.lit "hi") 3;
        OpCreateMessage (Js.lit "m1") sample_session ai (Js.lit "again") 4]
       empty_store).
Proof.
  apply (@primary_keys_preserved sample_platform).
  split; constructor.
Defined.

Lemma createConversation_then_lookup_witness :
  snd (getConversation sample_session
         (fst (createConversation sample_session 7 empty_store)))
  = Returned (Some {| Conversation.id := sample_session;
                      Conversation.createdAt := 7 |}).
Proof.
  apply (proj1 (proj2 (createConversation_then_lookup sample_session 7
                         empty_store))).
  reflexivity.
Defined.

Lemma createMessage_then_reads_witness :
  snd (getMessages other_session
         (fst (@createMessage sample_platform (Js.lit "m9") sample_session
                 user (Js.lit "more") 1703347200000 store_after_hello)))
  = snd (getMessages other_session store_after_hello).
Proof.
  apply (proj1 (@createMessage_then_reads sample_platform (Js.lit "m9")
                  sample_session user (Js.lit "more") 1703347200000
                  store_after_hello _ _ eq_refl)).
  vm_compute. reflexivity.
Defined.

Lemma history_limits_witness :
  exists full history older,
    snd (getMessages sample_session store_after_two_turns) = Returned full
    /\ snd (getConversationHistory sample_session 3 store_after_two_turns)
       = Returned history
    /\ full = older ++ history
    /\ List.length history = Nat.min 3 (List.length full).
Proof.
  destruct (history_limits sample_session 3 store_after_two_turns)
    as (full & history & older & E1 & E2 & E3 & E4 & _).
  exists full, history, older. now repeat split.
Defined.

Lemma prompt_renders_history_witness :
  Js.includes
    (@buildConversationContext sample_platform
       (messages store_after_two_turns) (Js.lit "and returns?"))
    (Js.lit "Customer: hello" ++ newline)
  = true.
Proof.
  apply (proj2 (@prompt_renders_history sample_platform
                  (messages store_after_two_turns) (Js.lit "and returns?"))
           {| Message.id := userMessageId (sample_env None 1);
              Message.conversationId := sample_session;
              Message.sender := user;
              Message.text := Js.lit "hello";
              Message.timestamp := 1703347200000 |}).
  vm_compute. left. reflexivity.
Defined.

Lemma fetched_history_is_rendered_witness :
  Js.slice_last 10
    (rev (select_desc_limit sample_session 10 (messages store_after_two_turns)))
  = rev (select_desc_limit sample_session 10 (messages store_after_two_turns)).
Proof.
  apply (@fetched_history_is_rendered sample_platform sample_session 10
           store_after_two_turns _ [] (le_n 10) eq_refl).
Defined.

Lemma generateReply_resolves_iff_witness :
  @generateReply sample_platform answering_service [] (Js.lit "hi")
  = inl (Js.trim (Js.lit "  Free shipping on orders over $50.  ")).
Proof.
  apply (proj1 (@generateReply_resolves_iff sample_platform answering_service
                  [] (Js.lit "hi"))).
  exists (Js.lit "  Free shipping on orders over $50.  ").
  split; [reflexivity|]. split; [discriminate|reflexivity].
Defined.

Lemma catch_fallback_is_unused_witness :
  @generateReply sample_platform fallback_echo_service [] (Js.lit "hi")
  = inl (Js.lit "Sorry, I encountered an error. Please try again.").
Proof.
  exact (@catch_fallback_is_unused sample_platform fallback_echo_service []
           (Js.lit "hi") eq_refl).
Defined.

Lemma turn_leaves_other_sessions_witness :
  snd (getMessages other_session
         (fst (@post_chat_message sample_platform
                 (sample_env (Some answering_service) 2) hello_body
                 store_after_hello)))
  = snd (getMessages other_session store_after_hello).
Proof.
  apply (@turn_leaves_other_sessions sample_platform
           (sample_env (Some answering_service) 2)
           (Js.String (Js.lit " hello ")) (Js.String sample_session)
           store_after_hello other_session).
  - intros E. vm_compute in E. discriminate.
  - intros E. vm_compute in E. discriminate.
Defined.

Lemma turn_then_history_witness :
  exists text,
    @get_chat_history sample_platform (sample_env None 2) sample_session
      store_after_hello
    = (store_after_hello,
       HistoryResponse
         (select_asc sample_session (messages empty_store)
          ++ [{| Message.id := userMessageId (sample_env None 1);
                 Message.conversationId := sample_session;
                 Message.sender := user;
                 Message.text := text;
                 Message.timestamp := now_user (sample_env None 1) |};
              {| Message.id := aiMessageId (sample_env None 1);
                 Message.conversationId := sample_session;
                 Message.sender := ai;
                 Message.text :=
                   Js.lit "Sorry, the AI service is currently unavailable.";
                 Message.timestamp := now_ai (sample_env None 1) |}])
         sample_session).
Proof.
  exact (@turn_then_history sample_platform (sample_env None 1)
           (sample_env None 2) hello_body empty_store store_after_hello
           (Js.lit "Sorry, the AI service is currently unavailable.")
           sample_session eq_refl eq_refl eq_refl eq_refl).
Defined.

Lemma server_keeps_integrity_witness :
  primary_keys (@serve_all sample_platform sample_requests empty_store)
  /\ references_resolve
       (@serve_all sample_platform sample_requests empty_store).
Proof.
  apply (@server_keeps_integrity sample_platform sample_requests empty_store).
  split; [split; constructor|intros m []].
Defined.

Lemma server_admits_texts_witness :
  Forall text_admitted
    (messages (@serve_all sample_platform sample_requests empty_store)).
Proof.
  apply (@server_admits_texts sample_platform sample_requests empty_store).
  constructor.
Defined.

Lemma server_pairs_replies_witness :
  replies_follow None
    (messages (@serve_all sample_platform sample_requests empty_store))
  = true.
Proof.
  exact (@server_pairs_replies sample_platform sample_requests empty_store
           eq_refl).
Defined.

Lemma llm_enabled_iff_key_witness :
  exists c r,
    Some (Js.lit "AIza-key") = Some (c :: r)
    /\ initial_llmService sample_sdk (Some (Js.lit "AIza-key"))
       = Some {| generateContent := sample_sdk (c :: r) |}.
Proof.
  apply (proj1 (@llm_enabled_iff_key sample_platform sample_sdk
                  (Some (Js.lit "AIza-key")) 0)).
  reflexivity.
Defined.

(** ** api.ts against the server *)

Lemma unknown_conversation_is_empty (c : jsstring) (st : Store) :
  references_resolve st -> count_conversations c st = 0 ->
  select_asc c (messages st) = [].
Proof.
  intros R Z0. unfold select_asc.
  destruct (where_conversationId c (messages st)) as [|r rows] eqn:E;
    [reflexivity|].
  assert (H : In r (where_conversationId c (messages st)))
    by (rewrite E; now left).
  apply where_conversationId_in in H as (_ & Hm & Hc).
  apply eqb_eq in Hc. specialize (R _ Hm). rewrite Hc in R.
  rewrite conversation_known, Z0 in R. discriminate.
Qed.

Lemma validateRequest_error_nonempty {U T : Type} (schema : U -> Parsed T)
  (data : U) (error : jsstring) :
  validateRequest schema data = Failure error -> error <> [].
Proof.
  unfold validateRequest. destruct (schema data); [discriminate| |];
    intros E; injection E as <-; [|discriminate].
  apply or_some_nonempty. discriminate.
Qed.

Section ClientFacts.
Context {P : Platform}.

Lemma chat_turn_answer (env : Env) (body : Body) (st : Store) :
  (exists reply sid,
      snd (post_chat_message env body st) = ChatMessageResponse reply sid)
  \/ (exists code error,
         snd (post_chat_message env body st)
         = ErrorResponse code error (now_error env)
         /\ (code = 400 \/ code = 500) /\ error <> []).
Proof.
  destruct (validateRequest_fails_or_succeeds ChatMessageRequestSchema body)
    as [[data V]|[error V]].
  - pose proof (chat_turn_value env body data st V) as T.
    cbv beta zeta in T. rewrite T.
    destruct (existsb _ (messages st));
      [|destruct (existsb _ (messages st ++ _))]; cbn [snd].
    + right. do 2 eexists. split; [reflexivity|]. split; [now right|].
      apply or_some_nonempty. discriminate.
    + right. do 2 eexists. split; [reflexivity|]. split; [now right|].
      apply or_some_nonempty. discriminate.
    + left. eauto.
  - rewrite (chat_turn_rejected env body st error V). cbn [snd].
    right. exists 400, error. split; [reflexivity|]. split; [now left|].
    exact (validateRequest_error_nonempty _ _ _ V).
Qed.

(** X26. Whatever the chat route answers, [sendMessage] returns the
    body of a 200 as it is, and throws for a 400 or 500 with the
    server's own error text (reworded only if that text is 'Failed to
    fetch'): the 'HTTP error! status' text is never needed for this
    route. *)
Theorem sendMessage_surfaces_server_error (env : Env) (body : Body)
  (st : Store) :
  (status (snd (post_chat_message env body st)) = 200 ->
   sendMessage (FetchResponse (snd (post_chat_message env body st)))
   = inl (snd (post_chat_message env body st)))
  /\ (status (snd (post_chat_message env body st)) <> 200 ->
      exists error,
        body_error (snd (post_chat_message env body st)) = Some error
        /\ error <> []
        /\ sendMessage (FetchResponse (snd (post_chat_message env body st)))
           = inr (if Js.eqb error (Js.lit "Failed to fetch")
                  then Js.lit "Cannot connect to server"
                  else error)).
Proof.
  destruct (chat_turn_answer env body st)
    as [(reply & sid & ->)|(code & error & -> & C & NE)].
  - split; [reflexivity|]. intros H. now destruct H.
  - split.
    + cbn [status]. intros ->. destruct C; discriminate.
    + intros _. exists error. split; [reflexivity|]. split; [exact NE|].
      unfold sendMessage, response_ok. cbn [status body_error].
      assert ((200 <=? code) && (code <=? 299) = false) as ->
        by (destruct C as [-> | ->]; reflexivity).
      cbn [negb]. destruct error as [|c r]; [now destruct NE|].
      cbn [Js.or]. destruct (Js.eqb (c :: r) (Js.lit "Failed to fetch"));
        reflexivity.
Qed.

(** X27. When the history route is asked for a session id of UUID
    form and every message row points to a conversation row,
    [getHistory] does not throw and returns exactly the messages of that
    session, in the server's order, an unknown session reading as
    empty. *)
Theorem getHistory_reads_session (env : Env) (s : jsstring) (st : Store) :
  is_uuid s = true -> references_resolve st ->
  getHistory s (FetchResponse (snd (get_chat_history env s st)))
  = inl (HistoryResponse (select_asc s (messages st)) s).
Proof.
  intros U R.
  unfold get_chat_history, asyncHandler, chat_history_body, validateRequest,
    SessionIdParamSchema.
  rewrite U. cbn [param_sessionId].
  unfold bind, conversationExists, getMessages, ret.
  destruct (Z.ltb_spec 0 (count_conversations s st)) as [K|K];
    cbn [negb snd].
  - reflexivity.
  - rewrite unknown_conversation_is_empty; [reflexivity|exact R|].
    unfold count_conversations in *. lia.
Qed.

End ClientFacts.

Lemma sendMessage_surfaces_server_error_witness :
  sendMessage
    (FetchResponse
       (snd (@post_chat_message sample_platform (sample_env None 1)
               (BodyObject (Js.String padded_message) Js.Undefined)
               empty_store)))
  = inr (Js.lit "Message is too long. Please keep it under 2000 characters.").
Proof.
  destruct (proj2 (@sendMessage_surfaces_server_error sample_platform
                     (sample_env None 1)
                     (BodyObject (Js.String padded_message) Js.Undefined)
                     empty_store))
    as (error & B & _ & S).
  - vm_compute. discriminate.
  - rewrite S.
    assert (error
            = Js.lit "Message is too long. Please keep it under 2000 characters.")
      as -> by (vm_compute in B; now injection B).
    reflexivity.
Defined.

Lemma getHistory_reads_session_witness :
  getHistory sample_session
    (FetchResponse
       (snd (@get_chat_history sample_platform (sample_env None 3)
               sample_session store_after_two_turns)))
  = inl (HistoryResponse (messages store_after_two_turns) sample_session).
Proof.
  rewrite (@getHistory_reads_session sample_platform (sample_env None 3)
             sample_session store_after_two_turns eq_refl).
  - vm_compute. reflexivity.
  - intros m H. vm_compute in H.
    destruct H as [<-|[<-|[<-|[<-|[]]]]]; reflexivity.
Defined.
